(** * ServoEasing: the motion engine of [src/ServoEasing.hpp]

    A shallow embedding of the default build of the library (Arduino Servo
    library as pulse output, no PCA9685 expander, non-linear easings enabled,
    microsecond values accepted as targets, no tracing), followed by the
    properties of the engine.

    Conventions of the embedding
    - The width of [int] and [long] differs between the targets of the
      library; values of these types are values of [Z].  C++ [/] on signed
      operands truncates toward zero: [Z.quot].
    - The [int32_t] arithmetic of the motion engine, in
      [MicrosecondsOrUnitsToDegree] and in the linear branch of [update], is
      reduced to 32 bit in two's complement ([to_int32]), as the compilers of
      the targets do; the division by the calibration span has no result for
      the divisor 0 and for the one quotient that does not fit
      ([int32_quot]), so the functions that convert to degree are partial.
    - Unsigned integers wrap; every wrap-around is written out
      ([to_uint32], [to_uint_fast16]).
    - Objects of class [ServoEasing] live in a store addressed by natural
      numbers; a pointer is an address, [NULL] is [None].  The static members
      of the class and the observable effects (pulses sent to the Servo
      library, invocations of the target-reached handler) are fields of
      [World]. *)

From Stdlib Require Import ZArith Bool List Lia.
From stdpp Require Import base option list.

Local Open Scope Z_scope.

(** ** Integer conversions *)

Definition to_uint32 (x : Z) : Z := x mod 2 ^ 32.

(** [(int32_t) x]: the value of [x] reduced to 32 bit, two's complement. *)
Definition to_int32 (x : Z) : Z := (x + 2 ^ 31) mod 2 ^ 32 - 2 ^ 31.

(** [x / y] on [int32_t]: truncating; the behaviour is undefined, and the
    program is stopped on targets that trap, when [y] is 0 or when the
    quotient is [INT32_MIN / -1], which does not fit. *)
Definition int32_quot (x y : Z) : option Z :=
  if (y =? 0) || ((x =? - 2 ^ 31) && (y =? -1)) then None else Some (x ÷ y).

(** ** Platform functions *)

Module Arduino.

(** [long map(long x, long in_min, long in_max, long out_min, long out_max)]
    of the Arduino core (WMath.cpp); signed division truncates. *)
Definition map (x in_min in_max out_min out_max : Z) : Z :=
  (x - in_min) * (out_max - out_min) ÷ (in_max - in_min) + out_min.

(** The [abs(x)] macro of Arduino.h. *)
Definition abs (x : Z) : Z := if 0 <? x then x else - x.

End Arduino.

(** ** Constants declared in ServoEasing.h and Servo.h

    The header files are not part of the translated source, so the values of
    the macros used by ServoEasing.hpp are parameters of the development. *)

Record Header : Type := {
  INVALID_SERVO : nat;
  THRESHOLD_VALUE_FOR_INTERPRETING_VALUE_AS_MICROSECONDS : Z;
  CALL_STYLE_MASK : Z;
  CALL_STYLE_BOUNCING_OUT_IN : Z;
  EASE_LINEAR : Z;
  EASE_DUMMY_MOVE : Z;
  MILLIS_IN_ONE_SECOND : Z;
  (** width in bits of [uint_fast16_t] on the target *)
  UINT_FAST16_WIDTH : Z
}.

(** ** The class ServoEasing *)

Record ServoEasing : Type := {
  mServoIndex : nat;
  mServoPin : Z;
  mServo0DegreeMicrosecondsOrUnits : Z;
  mServo180DegreeMicrosecondsOrUnits : Z;
  mTrimMicrosecondsOrUnits : Z;
  mOperateServoReverse : bool;
  mSpeed : Z;
  mEasingType : Z;
  mCurrentMicrosecondsOrUnits : Z;
  mStartMicrosecondsOrUnits : Z;
  mEndMicrosecondsOrUnits : Z;
  mDeltaMicrosecondsOrUnits : Z;
  mMillisAtStartMove : Z;
  mMillisForCompleteMove : Z;
  mServoMoves : bool;
  (** address of the registered handler function, [None] for [NULL] *)
  TargetPositionReachedHandler : option nat
}.

Definition set_mCurrentMicrosecondsOrUnits (v : Z) (s : ServoEasing) : ServoEasing :=
  {| mServoIndex := mServoIndex s; mServoPin := mServoPin s;
     mServo0DegreeMicrosecondsOrUnits := mServo0DegreeMicrosecondsOrUnits s;
     mServo180DegreeMicrosecondsOrUnits := mServo180DegreeMicrosecondsOrUnits s;
     mTrimMicrosecondsOrUnits := mTrimMicrosecondsOrUnits s;
     mOperateServoReverse := mOperateServoReverse s;
     mSpeed := mSpeed s; mEasingType := mEasingType s;
     mCurrentMicrosecondsOrUnits := v;
     mStartMicrosecondsOrUnits := mStartMicrosecondsOrUnits s;
     mEndMicrosecondsOrUnits := mEndMicrosecondsOrUnits s;
     mDeltaMicrosecondsOrUnits := mDeltaMicrosecondsOrUnits s;
     mMillisAtStartMove := mMillisAtStartMove s;
     mMillisForCompleteMove := mMillisForCompleteMove s;
     mServoMoves := mServoMoves s;
     TargetPositionReachedHandler := TargetPositionReachedHandler s |}.

Definition set_mServoMoves (b : bool) (s : ServoEasing) : ServoEasing :=
  {| mServoIndex := mServoIndex s; mServoPin := mServoPin s;
     mServo0DegreeMicrosecondsOrUnits := mServo0DegreeMicrosecondsOrUnits s;
     mServo180DegreeMicrosecondsOrUnits := mServo180DegreeMicrosecondsOrUnits s;
     mTrimMicrosecondsOrUnits := mTrimMicrosecondsOrUnits s;
     mOperateServoReverse := mOperateServoReverse s;
     mSpeed := mSpeed s; mEasingType := mEasingType s;
     mCurrentMicrosecondsOrUnits := mCurrentMicrosecondsOrUnits s;
     mStartMicrosecondsOrUnits := mStartMicrosecondsOrUnits s;
     mEndMicrosecondsOrUnits := mEndMicrosecondsOrUnits s;
     mDeltaMicrosecondsOrUnits := mDeltaMicrosecondsOrUnits s;
     mMillisAtStartMove := mMillisAtStartMove s;
     mMillisForCompleteMove := mMillisForCompleteMove s;
     mServoMoves := b;
     TargetPositionReachedHandler := TargetPositionReachedHandler s |}.

Definition set_mSpeed (v : Z) (s : ServoEasing) : ServoEasing :=
  {| mServoIndex := mServoIndex s; mServoPin := mServoPin s;
     mServo0DegreeMicrosecondsOrUnits := mServo0DegreeMicrosecondsOrUnits s;
     mServo180DegreeMicrosecondsOrUnits := mServo180DegreeMicrosecondsOrUnits s;
     mTrimMicrosecondsOrUnits := mTrimMicrosecondsOrUnits s;
     mOperateServoReverse := mOperateServoReverse s;
     mSpeed := v; mEasingType := mEasingType s;
     mCurrentMicrosecondsOrUnits := mCurrentMicrosecondsOrUnits s;
     mStartMicrosecondsOrUnits := mStartMicrosecondsOrUnits s;
     mEndMicrosecondsOrUnits := mEndMicrosecondsOrUnits s;
     mDeltaMicrosecondsOrUnits := mDeltaMicrosecondsOrUnits s;
     mMillisAtStartMove := mMillisAtStartMove s;
     mMillisForCompleteMove := mMillisForCompleteMove s;
     mServoMoves := mServoMoves s;
     TargetPositionReachedHandler := TargetPositionReachedHandler s |}.

Definition set_TargetPositionReachedHandler (h : option nat) (s : ServoEasing) : ServoEasing :=
  {| mServoIndex := mServoIndex s; mServoPin := mServoPin s;
     mServo0DegreeMicrosecondsOrUnits := mServo0DegreeMicrosecondsOrUnits s;
     mServo180DegreeMicrosecondsOrUnits := mServo180DegreeMicrosecondsOrUnits s;
     mTrimMicrosecondsOrUnits := mTrimMicrosecondsOrUnits s;
     mOperateServoReverse := mOperateServoReverse s;
     mSpeed := mSpeed s; mEasingType := mEasingType s;
     mCurrentMicrosecondsOrUnits := mCurrentMicrosecondsOrUnits s;
     mStartMicrosecondsOrUnits := mStartMicrosecondsOrUnits s;
     mEndMicrosecondsOrUnits := mEndMicrosecondsOrUnits s;
     mDeltaMicrosecondsOrUnits := mDeltaMicrosecondsOrUnits s;
     mMillisAtStartMove := mMillisAtStartMove s;
     mMillisForCompleteMove := mMillisForCompleteMove s;
     mServoMoves := mServoMoves s;
     TargetPositionReachedHandler := h |}.

(** The two fields written by the second loop of
    [synchronizeAllServosAndStartInterrupt]. *)
Definition set_timing (start duration : Z) (s : ServoEasing) : ServoEasing :=
  {| mServoIndex := mServoIndex s; mServoPin := mServoPin s;
     mServo0DegreeMicrosecondsOrUnits := mServo0DegreeMicrosecondsOrUnits s;
     mServo180DegreeMicrosecondsOrUnits := mServo180DegreeMicrosecondsOrUnits s;
     mTrimMicrosecondsOrUnits := mTrimMicrosecondsOrUnits s;
     mOperateServoReverse := mOperateServoReverse s;
     mSpeed := mSpeed s; mEasingType := mEasingType s;
     mCurrentMicrosecondsOrUnits := mCurrentMicrosecondsOrUnits s;
     mStartMicrosecondsOrUnits := mStartMicrosecondsOrUnits s;
     mEndMicrosecondsOrUnits := mEndMicrosecondsOrUnits s;
     mDeltaMicrosecondsOrUnits := mDeltaMicrosecondsOrUnits s;
     mMillisAtStartMove := start;
     mMillisForCompleteMove := duration;
     mServoMoves := mServoMoves s;
     TargetPositionReachedHandler := TargetPositionReachedHandler s |}.

(** The fields written by [startEaseToD] once the target is known. *)
Definition set_move (end_ delta duration start_ at_ : Z) (s : ServoEasing) : ServoEasing :=
  {| mServoIndex := mServoIndex s; mServoPin := mServoPin s;
     mServo0DegreeMicrosecondsOrUnits := mServo0DegreeMicrosecondsOrUnits s;
     mServo180DegreeMicrosecondsOrUnits := mServo180DegreeMicrosecondsOrUnits s;
     mTrimMicrosecondsOrUnits := mTrimMicrosecondsOrUnits s;
     mOperateServoReverse := mOperateServoReverse s;
     mSpeed := mSpeed s; mEasingType := mEasingType s;
     mCurrentMicrosecondsOrUnits := mCurrentMicrosecondsOrUnits s;
     mStartMicrosecondsOrUnits := start_;
     mEndMicrosecondsOrUnits := end_;
     mDeltaMicrosecondsOrUnits := delta;
     mMillisAtStartMove := at_;
     mMillisForCompleteMove := duration;
     mServoMoves := true;
     TargetPositionReachedHandler := TargetPositionReachedHandler s |}.

(** ** Static members, the object store and the observable effects *)

Record World : Type := {
  (** object store: [objects !! p] is the [ServoEasing] object at address [p] *)
  objects : list ServoEasing;
  (** [ServoEasing *ServoEasing::ServoEasingArray[MAX_EASING_SERVOS]] *)
  ServoEasingArray : list (option nat);
  sServoArrayMaxIndex : nat;
  (** [int ServoEasing::ServoEasingNextPositionArray[MAX_EASING_SERVOS]] *)
  ServoEasingNextPositionArray : list Z;
  sInterruptsAreActive : bool;
  (** the value [millis()] returns *)
  millis : Z;
  (** calls of [Servo::writeMicroseconds], oldest first: pin and value *)
  pulses : list (Z * Z);
  (** invocations of target-reached handlers, oldest first: handler address
      and the [ServoEasing*] argument *)
  reached : list (nat * nat)
}.

Definition set_objects (o : list ServoEasing) (w : World) : World :=
  {| objects := o; ServoEasingArray := ServoEasingArray w;
     sServoArrayMaxIndex := sServoArrayMaxIndex w;
     ServoEasingNextPositionArray := ServoEasingNextPositionArray w;
     sInterruptsAreActive := sInterruptsAreActive w; millis := millis w;
     pulses := pulses w; reached := reached w |}.

Definition set_ServoEasingNextPositionArray (a : list Z) (w : World) : World :=
  {| objects := objects w; ServoEasingArray := ServoEasingArray w;
     sServoArrayMaxIndex := sServoArrayMaxIndex w;
     ServoEasingNextPositionArray := a;
     sInterruptsAreActive := sInterruptsAreActive w; millis := millis w;
     pulses := pulses w; reached := reached w |}.

Definition set_sInterruptsAreActive (b : bool) (w : World) : World :=
  {| objects := objects w; ServoEasingArray := ServoEasingArray w;
     sServoArrayMaxIndex := sServoArrayMaxIndex w;
     ServoEasingNextPositionArray := ServoEasingNextPositionArray w;
     sInterruptsAreActive := b; millis := millis w;
     pulses := pulses w; reached := reached w |}.

Definition set_millis (t : Z) (w : World) : World :=
  {| objects := objects w; ServoEasingArray := ServoEasingArray w;
     sServoArrayMaxIndex := sServoArrayMaxIndex w;
     ServoEasingNextPositionArray := ServoEasingNextPositionArray w;
     sInterruptsAreActive := sInterruptsAreActive w; millis := t;
     pulses := pulses w; reached := reached w |}.

Definition set_pulses (l : list (Z * Z)) (w : World) : World :=
  {| objects := objects w; ServoEasingArray := ServoEasingArray w;
     sServoArrayMaxIndex := sServoArrayMaxIndex w;
     ServoEasingNextPositionArray := ServoEasingNextPositionArray w;
     sInterruptsAreActive := sInterruptsAreActive w; millis := millis w;
     pulses := l; reached := reached w |}.

Definition set_reached (l : list (nat * nat)) (w : World) : World :=
  {| objects := objects w; ServoEasingArray := ServoEasingArray w;
     sServoArrayMaxIndex := sServoArrayMaxIndex w;
     ServoEasingNextPositionArray := ServoEasingNextPositionArray w;
     sInterruptsAreActive := sInterruptsAreActive w; millis := millis w;
     pulses := pulses w; reached := l |}.

(** [*this = s] *)
Definition store (this : nat) (s : ServoEasing) (w : World) : World :=
  set_objects (<[this := s]> (objects w)) w.

(** [Servo::writeMicroseconds(value)] of the servo attached to [pin]. *)
Definition Servo_writeMicroseconds (pin value : Z) (w : World) : World :=
  set_pulses (pulses w ++ [(pin, value)]) w.

(** [ServoEasingArray[i]], [None] for [NULL]. *)
Definition servoAt (w : World) (i : nat) : option nat :=
  mjoin (ServoEasingArray w !! i).

(** [this->mServoMoves] *)
Definition moves (w : World) (this : nat) : bool :=
  match objects w !! this with
  | Some s => mServoMoves s
  | None => false
  end.

(** [f(this)] for a field update [f]; a dangling [this] is outside the model
    and leaves the store as it is. *)
Definition modify (this : nat) (f : ServoEasing -> ServoEasing) (w : World) : World :=
  set_objects (alter f this (objects w)) w.

(** The slots visited by
    [for (tServoIndex = 0; tServoIndex <= sServoArrayMaxIndex; ++tServoIndex)]. *)
Definition slots (w : World) : list nat := seq 0 (S (sServoArrayMaxIndex w)).

(** ** The member functions and the list functions *)

Section Engine.

Variable hdr : Header.

(** Semantics of the application's handler functions: the effect on the
    world of calling the function at address [h] with argument [this]. *)
Variable TargetPositionReached : nat -> nat -> World -> World.

(** The floating point computation of [update()] for the non-linear easings
    (call style, easing function, degree indicator offset): the new
    position as a function of the object and the milliseconds since start. *)
Variable easedMicrosecondsOrUnits : ServoEasing -> Z -> Z.

(** Conversion to [uint_fast16_t]. *)
Definition to_uint_fast16 (x : Z) : Z := x mod 2 ^ UINT_FAST16_WIDTH hdr.

Definition DegreeToMicrosecondsOrUnits (s : ServoEasing) (aDegreeOrMicroseconds : Z) : Z :=
  if aDegreeOrMicroseconds <? THRESHOLD_VALUE_FOR_INTERPRETING_VALUE_AS_MICROSECONDS hdr
  then Arduino.map aDegreeOrMicroseconds 0 180
         (mServo0DegreeMicrosecondsOrUnits s) (mServo180DegreeMicrosecondsOrUnits s)
  else aDegreeOrMicroseconds.

(** [tResult] is an [int32_t]; [None] when the final division has no
    result. *)
Definition MicrosecondsOrUnitsToDegree (s : ServoEasing) (aMicrosecondsOrUnits : Z)
    : option Z :=
  let tResult := to_int32 (aMicrosecondsOrUnits - mServo0DegreeMicrosecondsOrUnits s) in
  let tResult := to_int32 (tResult * 180 + 928) in
  int32_quot tResult
    (mServo180DegreeMicrosecondsOrUnits s - mServo0DegreeMicrosecondsOrUnits s).

Definition MicrosecondsToDegree (s : ServoEasing) (aMicroseconds : Z) : option Z :=
  MicrosecondsOrUnitsToDegree s aMicroseconds.

Definition DegreeToMicrosecondsOrUnitsWithTrimAndReverse (s : ServoEasing) (aDegree : Z) : Z :=
  let tResultValue :=
    Arduino.map aDegree 0 180
      (mServo0DegreeMicrosecondsOrUnits s) (mServo180DegreeMicrosecondsOrUnits s) in
  let tResultValue := tResultValue + mTrimMicrosecondsOrUnits s in
  if mOperateServoReverse s
  then mServo180DegreeMicrosecondsOrUnits s
       - (tResultValue - mServo0DegreeMicrosecondsOrUnits s)
  else tResultValue.

Definition writeMicrosecondsOrUnits (this : nat) (aMicrosecondsOrUnits : Z) (w : World) : World :=
  match objects w !! this with
  | None => w
  | Some s =>
      if Nat.eqb (mServoIndex s) (INVALID_SERVO hdr) then w
      else
        let w1 := store this (set_mCurrentMicrosecondsOrUnits aMicrosecondsOrUnits s) w in
        let aMicrosecondsOrUnits := aMicrosecondsOrUnits + mTrimMicrosecondsOrUnits s in
        let aMicrosecondsOrUnits :=
          if mOperateServoReverse s
          then mServo180DegreeMicrosecondsOrUnits s
               - (aMicrosecondsOrUnits - mServo0DegreeMicrosecondsOrUnits s)
          else aMicrosecondsOrUnits in
        Servo_writeMicroseconds (mServoPin s) aMicrosecondsOrUnits w1
  end.

Definition write (this : nat) (aDegreeOrMicrosecond : Z) (w : World) : World :=
  match objects w !! this with
  | None => w
  | Some s =>
      if Nat.eqb (mServoIndex s) (INVALID_SERVO hdr) then w
      else
        let w1 :=
          set_ServoEasingNextPositionArray
            (<[mServoIndex s := aDegreeOrMicrosecond]> (ServoEasingNextPositionArray w)) w in
        writeMicrosecondsOrUnits this (DegreeToMicrosecondsOrUnits s aDegreeOrMicrosecond) w1
  end.

Definition setSpeed (this : nat) (aDegreesPerSecond : Z) (w : World) : World :=
  modify this (set_mSpeed aDegreesPerSecond) w.

Definition setTargetPositionReachedHandler (this : nat) (aHandler : option nat) (w : World) : World :=
  modify this (set_TargetPositionReachedHandler aHandler) w.

(** The timer set-up is platform code; the engine only sees the flag. *)
Definition enableServoEasingInterrupt (w : World) : World :=
  set_sInterruptsAreActive true w.

Definition disableServoEasingInterrupt (w : World) : World :=
  set_sInterruptsAreActive false w.

Definition is_bouncing (s : ServoEasing) : bool :=
  Z.land (mEasingType s) (CALL_STYLE_MASK hdr) =? CALL_STYLE_BOUNCING_OUT_IN hdr.

Definition startEaseToD (this : nat) (aDegreeOrMicrosecond aMillisForMove : Z)
    (aStartUpdateByInterrupt : bool) (w : World) : World * bool :=
  match objects w !! this with
  | None => (w, true)
  | Some s =>
      if Nat.eqb (mServoIndex s) (INVALID_SERVO hdr) then (w, true)
      else
        let tNotDummy := negb (mEasingType s =? EASE_DUMMY_MOVE hdr) in
        let w1 :=
          if tNotDummy
          then set_ServoEasingNextPositionArray
                 (<[mServoIndex s := aDegreeOrMicrosecond]> (ServoEasingNextPositionArray w)) w
          else w in
        let tEnd :=
          if tNotDummy then DegreeToMicrosecondsOrUnits s aDegreeOrMicrosecond
          else mEndMicrosecondsOrUnits s in
        let tCurrentMicrosecondsOrUnits := mCurrentMicrosecondsOrUnits s in
        let tDelta := tEnd - tCurrentMicrosecondsOrUnits in
        let tEnd := if is_bouncing s then tCurrentMicrosecondsOrUnits else tEnd in
        let tReturnValue := negb (mServoMoves s) in
        let w2 :=
          store this
            (set_move tEnd tDelta aMillisForMove tCurrentMicrosecondsOrUnits (millis w) s) w1 in
        let w3 :=
          if aStartUpdateByInterrupt && negb (sInterruptsAreActive w2)
          then enableServoEasingInterrupt w2 else w2 in
        (w3, tReturnValue)
  end.

(** The duration [startEaseTo] derives from speed and distance, before the
    bouncing style doubles it; [None] when one of the two conversions to
    degree has no result. *)
Definition millisFromSpeed (s : ServoEasing) (aDegreeOrMicrosecond aDegreesPerSecond : Z)
    : option Z :=
  let aDegreesPerSecond := if aDegreesPerSecond =? 0 then 1 else aDegreesPerSecond in
  tTargetDegree ←
    (if aDegreeOrMicrosecond >=? THRESHOLD_VALUE_FOR_INTERPRETING_VALUE_AS_MICROSECONDS hdr
     then MicrosecondsToDegree s aDegreeOrMicrosecond
     else Some aDegreeOrMicrosecond);
  tCurrentDegree ← MicrosecondsOrUnitsToDegree s (mCurrentMicrosecondsOrUnits s);
  Some (to_uint_fast16
          (Arduino.abs (tTargetDegree - tCurrentDegree) * MILLIS_IN_ONE_SECOND hdr
           ÷ aDegreesPerSecond)).

(** [startEaseTo] converts the positions before [startEaseToD] tests the
    index of the servo, so it has no result when a conversion has none. *)
Definition startEaseTo (this : nat) (aDegreeOrMicrosecond aDegreesPerSecond : Z)
    (aStartUpdateByInterrupt : bool) (w : World) : option (World * bool) :=
  match objects w !! this with
  | None => Some (w, true)
  | Some s =>
      tMillisForCompleteMove ← millisFromSpeed s aDegreeOrMicrosecond aDegreesPerSecond;
      let tMillisForCompleteMove :=
        if is_bouncing s then to_uint_fast16 (tMillisForCompleteMove * 2)
        else tMillisForCompleteMove in
      Some (startEaseToD this aDegreeOrMicrosecond tMillisForCompleteMove
              aStartUpdateByInterrupt w)
  end.


Definition isOneServoMoving (w : World) : bool :=
  existsb (fun tServoIndex =>
             match servoAt w tServoIndex with
             | Some p => moves w p
             | None => false
             end) (slots w).

Definition stop (this : nat) (w : World) : World :=
  let w1 := modify this (set_mServoMoves false) w in
  if negb (isOneServoMoving w1) then disableServoEasingInterrupt w1 else w1.

Definition continueWithoutInterrupts (this : nat) (w : World) : World :=
  modify this (set_mServoMoves true) w.

Definition update (this : nat) (w : World) : World * bool :=
  match objects w !! this with
  | None => (w, true)
  | Some s =>
      if negb (mServoMoves s) then (w, true)
      else
        let tMillisSinceStart := to_uint32 (millis w - mMillisAtStartMove s) in
        if tMillisSinceStart >=? mMillisForCompleteMove s then
          let w1 := writeMicrosecondsOrUnits this (mEndMicrosecondsOrUnits s) w in
          let w2 := modify this (set_mServoMoves false) w1 in
          let w3 :=
            match TargetPositionReachedHandler s with
            | Some h =>
                TargetPositionReached h this (set_reached (reached w2 ++ [(h, this)]) w2)
            | None => w2
            end in
          (w3, negb (moves w3 this))
        else
          let tNewMicrosecondsOrUnits :=
            if mEasingType s =? EASE_LINEAR hdr
            then mStartMicrosecondsOrUnits s
                 + to_int32 (mDeltaMicrosecondsOrUnits s * to_int32 tMillisSinceStart)
                   ÷ to_int32 (mMillisForCompleteMove s)
            else easedMicrosecondsOrUnits s tMillisSinceStart in
          (if tNewMicrosecondsOrUnits =? mCurrentMicrosecondsOrUnits s then w
           else writeMicrosecondsOrUnits this tNewMicrosecondsOrUnits w, false)
  end.



Definition stopAllServos (w : World) : World :=
  foldl (fun w tServoIndex =>
           match servoAt w tServoIndex with
           | Some p => modify p (set_mServoMoves false) w
           | None => w
           end) w (slots w).

Definition updateAllServos (w : World) : World * bool :=
  foldl (fun (acc : World * bool) tServoIndex =>
           let (w, tAllServosStopped) := acc in
           match servoAt w tServoIndex with
           | Some p => let (w', r) := update p w in (w', r && tAllServosStopped)
           | None => acc
           end) (w, true) (slots w).

(** The condition of both loops of the synchronisation,
    [ServoEasingArray[i] != NULL && ServoEasingArray[i]->mServoMoves]:
    the pointer in slot [i] when it holds. *)
Definition movingAt (w : World) (i : nat) : option nat :=
  match servoAt w i with
  | Some p => if moves w p then Some p else None
  | None => None
  end.

(** First loop: [(tMaxMillisForCompleteMove, tMillisAtStartMove)]. *)
Definition findMaxDurationAndStart (w : World) : Z * Z :=
  foldl (fun (acc : Z * Z) tServoIndex =>
           let (tMaxMillisForCompleteMove, tMillisAtStartMove) := acc in
           match movingAt w tServoIndex with
           | Some p =>
               match objects w !! p with
               | Some s =>
                   (if mMillisForCompleteMove s >? tMaxMillisForCompleteMove
                    then mMillisForCompleteMove s else tMaxMillisForCompleteMove,
                    mMillisAtStartMove s)
               | None => acc
               end
           | None => acc
           end) (0, 0) (slots w).

Definition synchronizeAllServosAndStartInterrupt (aStartUpdateByInterrupt : bool) (w : World)
    : World :=
  let (tMaxMillisForCompleteMove, tMillisAtStartMove) := findMaxDurationAndStart w in
  let w1 :=
    foldl (fun w tServoIndex =>
             match movingAt w tServoIndex with
             | Some p => modify p (set_timing tMillisAtStartMove tMaxMillisForCompleteMove) w
             | None => w
             end) w (slots w) in
  if aStartUpdateByInterrupt then enableServoEasingInterrupt w1 else w1.

End Engine.

(** ** Vocabulary of the properties *)

(** The transform of the pulse-write boundary in the words of the design
    notes: [withTrim = units + trim]; when reversed the result is
    [calibrationHigh - (withTrim - calibrationLow)], else [withTrim]. *)
Definition applyTrimAndReverse (calibrationLow calibrationHigh trim : Z) (reversed : bool)
    (units : Z) : Z :=
  let withTrim := units + trim in
  if reversed then calibrationHigh - (withTrim - calibrationLow) else withTrim.

(** The pulse value a servo sends for the position [units]. *)
Definition pulseOf (s : ServoEasing) (units : Z) : Z :=
  applyTrimAndReverse (mServo0DegreeMicrosecondsOrUnits s) (mServo180DegreeMicrosecondsOrUnits s)
    (mTrimMicrosecondsOrUnits s) (mOperateServoReverse s) units.

(** [tMillisSinceStart] of [update()] when [millis()] returns [t]. *)
Definition elapsed (s : ServoEasing) (t : Z) : Z := to_uint32 (t - mMillisAtStartMove s).

(** The object at address [p] sits in one of the slots the list functions visit. *)
Definition registered (w : World) (p : nat) : Prop :=
  exists i, (i <= sServoArrayMaxIndex w)%nat /\ servoAt w i = Some p.

(** The object at [p] is registered and its moving flag is set. *)
Definition movingServo (w : World) (p : nat) (s : ServoEasing) : Prop :=
  registered w p /\ objects w !! p = Some s /\ mServoMoves s = true.

(** What [attach()] establishes: the object in slot [i] carries index [i]. *)
Definition registry_ok (w : World) : Prop :=
  forall i p s, (i <= sServoArrayMaxIndex w)%nat ->
    servoAt w i = Some p -> objects w !! p = Some s -> mServoIndex s = i.

(** All fields of the world but the object store agree. *)
Definition same_statics (w w' : World) : Prop := w' = set_objects (objects w') w.

(** The division of [MicrosecondsOrUnitsToDegree] has a result for every
    position: the span of the two calibration values of [s] is neither 0
    nor -1. *)
Definition convertible (s : ServoEasing) : Prop :=
  mServo180DegreeMicrosecondsOrUnits s - mServo0DegreeMicrosecondsOrUnits s <> 0 /\
  mServo180DegreeMicrosecondsOrUnits s - mServo0DegreeMicrosecondsOrUnits s <> -1.





(** One period of a polling loop: the clock reads [t], then [update()] runs. *)
Definition tick (hdr : Header) (H : nat -> nat -> World -> World)
    (eased : ServoEasing -> Z -> Z) (this : nat) (w : World) (t : Z) : World :=
  fst (update hdr H eased this (set_millis t w)).

Definition run_ticks (hdr : Header) (H : nat -> nat -> World -> World)
    (eased : ServoEasing -> Z -> Z) (this : nat) (ts : list Z) (w : World) : World :=
  foldl (tick hdr H eased this) w ts.

(** The tick that reads the clock value [t] in the state [w] completes a
    move of the servo at [this]: the servo moves and the time since the
    start of the move has reached its duration. *)
Definition completesMove (this : nat) (w : World) (t : Z) : bool :=
  match objects w !! this with
  | Some s => mServoMoves s && (mMillisForCompleteMove s <=? elapsed s t)
  | None => false
  end.

(** The handler registered for the servo at [this]. *)
Definition handlerOf (this : nat) (w : World) : option nat :=
  objects w !! this ≫= TargetPositionReachedHandler.

(** The moves a run of ticks completes while a handler is registered, oldest
    first, each as the handler and the servo it is due to be called with. *)
Fixpoint completedMoves (hdr : Header) (H : nat -> nat -> World -> World)
    (eased : ServoEasing -> Z -> Z) (this : nat) (ts : list Z) (w : World)
    : list (nat * nat) :=
  match ts with
  | [] => []
  | t :: ts' =>
      (if completesMove this w t
       then match handlerOf this w with Some h => [(h, this)] | None => [] end
       else [])
      ++ completedMoves hdr H eased this ts' (tick hdr H eased this w t)
  end.

(** ** Sample data, used to run the model on concrete inputs *)

Module Sample.

(** One choice of values for the constants: [INVALID_SERVO] as in the Servo
    library of Arduino, the threshold of 400 named in the comments of
    ServoEasing.hpp, the call style in the two upper bits of the easing type,
    and a [uint_fast16_t] of 16 bits as on AVR. *)
Definition header : Header :=
  {| INVALID_SERVO := 255;
     THRESHOLD_VALUE_FOR_INTERPRETING_VALUE_AS_MICROSECONDS := 400;
     CALL_STYLE_MASK := 192;
     CALL_STYLE_BOUNCING_OUT_IN := 192;
     EASE_LINEAR := 0;
     EASE_DUMMY_MOVE := 7;
     MILLIS_IN_ONE_SECOND := 1000;
     UINT_FAST16_WIDTH := 16 |}.

(** A servo as the constructor and [attach(pin, low, high)] leave it,
    resting at [current]. *)
Definition servo (index : nat) (pin low high current : Z) : ServoEasing :=
  {| mServoIndex := index; mServoPin := pin;
     mServo0DegreeMicrosecondsOrUnits := low;
     mServo180DegreeMicrosecondsOrUnits := high;
     mTrimMicrosecondsOrUnits := 0; mOperateServoReverse := false;
     mSpeed := 5; mEasingType := 0;
     mCurrentMicrosecondsOrUnits := current;
     mStartMicrosecondsOrUnits := 0; mEndMicrosecondsOrUnits := 0;
     mDeltaMicrosecondsOrUnits := 0;
     mMillisAtStartMove := 0; mMillisForCompleteMove := 0;
     mServoMoves := false; TargetPositionReachedHandler := None |}.

(** The same servo on its way from [current] to [target], started at time
    [start] for [duration] milliseconds. *)
Definition moving (index : nat) (pin current target start duration : Z)
    (handler : option nat) : ServoEasing :=
  {| mServoIndex := index; mServoPin := pin;
     mServo0DegreeMicrosecondsOrUnits := 544;
     mServo180DegreeMicrosecondsOrUnits := 2400;
     mTrimMicrosecondsOrUnits := 0; mOperateServoReverse := false;
     mSpeed := 5; mEasingType := 0;
     mCurrentMicrosecondsOrUnits := current;
     mStartMicrosecondsOrUnits := current; mEndMicrosecondsOrUnits := target;
     mDeltaMicrosecondsOrUnits := target - current;
     mMillisAtStartMove := start; mMillisForCompleteMove := duration;
     mServoMoves := true; TargetPositionReachedHandler := handler |}.

(** Three slots; the objects are registered in the order given. *)
Definition world (objs : list ServoEasing) (registry : list (option nat)) (top : nat)
    (now : Z) : World :=
  {| objects := objs; ServoEasingArray := registry; sServoArrayMaxIndex := top;
     ServoEasingNextPositionArray := [0; 0; 0];
     sInterruptsAreActive := true; millis := now; pulses := []; reached := [] |}.

(** A handler that does nothing to the engine. *)
Definition quiet (h this : nat) (w : World) : World := w.

(** A handler that starts the next move, to 90 degree in one second. *)
Definition restart (h this : nat) (w : World) : World :=
  fst (startEaseToD header this 90 1000 false w).

(** No non-linear easing is exercised by the samples. *)
Definition noEasing (s : ServoEasing) (t : Z) : Z := mStartMicrosecondsOrUnits s.

(** A servo calibrated for the range 1000 to 1900 microseconds. *)
Definition narrow : ServoEasing := servo 0 9 1000 1900 1000.

(** A servo whose [attach()] found no free slot, or which was detached. *)
Definition detached : ServoEasing := servo 255 9 544 2400 1500.

Definition detachedWorld : World := world [detached] [None; None; None] 0 100.

(** The detached servo after [continueWithoutInterrupts()]: its moving flag
    is set although it has no slot. *)
Definition strayWorld : World := continueWithoutInterrupts 0 detachedWorld.

(** One attached, resting servo. *)
Definition restingWorld : World :=
  world [servo 0 9 544 2400 1500] [Some 0%nat; None; None] 0 100.

(** One attached servo with a trim of 25 and reverse operation, resting at
    1500. *)
Definition trimmed : ServoEasing :=
  {| mServoIndex := 0; mServoPin := 9;
     mServo0DegreeMicrosecondsOrUnits := 544;
     mServo180DegreeMicrosecondsOrUnits := 2400;
     mTrimMicrosecondsOrUnits := 25; mOperateServoReverse := true;
     mSpeed := 5; mEasingType := 0;
     mCurrentMicrosecondsOrUnits := 1500;
     mStartMicrosecondsOrUnits := 0; mEndMicrosecondsOrUnits := 0;
     mDeltaMicrosecondsOrUnits := 0;
     mMillisAtStartMove := 0; mMillisForCompleteMove := 0;
     mServoMoves := false; TargetPositionReachedHandler := None |}.

Definition trimmedWorld : World := world [trimmed] [Some 0%nat; None; None] 0 100.




Definition flatDetachedWorld : World :=
  world [servo 255 9 1500 1500 1500] [None; None; None] 0 100.

(** One attached servo with bouncing call style, resting at 1000. *)
Definition bouncing : ServoEasing :=
  {| mServoIndex := 0; mServoPin := 9;
     mServo0DegreeMicrosecondsOrUnits := 544;
     mServo180DegreeMicrosecondsOrUnits := 2400;
     mTrimMicrosecondsOrUnits := 0; mOperateServoReverse := false;
     mSpeed := 5; mEasingType := 193;
     mCurrentMicrosecondsOrUnits := 1000;
     mStartMicrosecondsOrUnits := 0; mEndMicrosecondsOrUnits := 0;
     mDeltaMicrosecondsOrUnits := 0;
     mMillisAtStartMove := 0; mMillisForCompleteMove := 0;
     mServoMoves := false; TargetPositionReachedHandler := None |}.

Definition bouncingWorld : World := world [bouncing] [Some 0%nat; None; None] 0 100.

(** One attached servo moving from 544 to 1472 since time 0 for 1500 ms,
    after [setTargetPositionReachedHandler()] registered the handler at
    address 1; the clock reads 1500. *)
Definition finishingWorld : World :=
  setTargetPositionReachedHandler 0 (Some 1%nat)
    (world [moving 0 9 544 1472 0 1500 None] [Some 0%nat; None; None] 0 1500).

(** Three registered servos, two of them moving with durations 1500 and 700
    started at times 40 and 47, one resting; a fourth object is detached. *)
Definition mixedWorld : World :=
  world [moving 0 9 544 1472 40 1500 None; servo 1 10 544 2400 1500;
         moving 2 11 2400 2000 47 700 None; detached]
    [Some 0%nat; Some 1%nat; Some 2%nat] 2 50.

End Sample.

(** * More of the library

    The member functions and list functions around those above: attaching
    and detaching, trim and direction, the blocking moves, the remaining
    loops over the registry, and the unit conversions of the expander build. *)

(** ** Further field updates *)

Definition set_mTrimMicrosecondsOrUnits (v : Z) (s : ServoEasing) : ServoEasing :=
  {| mServoIndex := mServoIndex s; mServoPin := mServoPin s;
     mServo0DegreeMicrosecondsOrUnits := mServo0DegreeMicrosecondsOrUnits s;
     mServo180DegreeMicrosecondsOrUnits := mServo180DegreeMicrosecondsOrUnits s;
     mTrimMicrosecondsOrUnits := v;
     mOperateServoReverse := mOperateServoReverse s;
     mSpeed := mSpeed s; mEasingType := mEasingType s;
     mCurrentMicrosecondsOrUnits := mCurrentMicrosecondsOrUnits s;
     mStartMicrosecondsOrUnits := mStartMicrosecondsOrUnits s;
     mEndMicrosecondsOrUnits := mEndMicrosecondsOrUnits s;
     mDeltaMicrosecondsOrUnits := mDeltaMicrosecondsOrUnits s;
     mMillisAtStartMove := mMillisAtStartMove s;
     mMillisForCompleteMove := mMillisForCompleteMove s;
     mServoMoves := mServoMoves s;
     TargetPositionReachedHandler := TargetPositionReachedHandler s |}.

Definition set_mOperateServoReverse (b : bool) (s : ServoEasing) : ServoEasing :=
  {| mServoIndex := mServoIndex s; mServoPin := mServoPin s;
     mServo0DegreeMicrosecondsOrUnits := mServo0DegreeMicrosecondsOrUnits s;
     mServo180DegreeMicrosecondsOrUnits := mServo180DegreeMicrosecondsOrUnits s;
     mTrimMicrosecondsOrUnits := mTrimMicrosecondsOrUnits s;
     mOperateServoReverse := b;
     mSpeed := mSpeed s; mEasingType := mEasingType s;
     mCurrentMicrosecondsOrUnits := mCurrentMicrosecondsOrUnits s;
     mStartMicrosecondsOrUnits := mStartMicrosecondsOrUnits s;
     mEndMicrosecondsOrUnits := mEndMicrosecondsOrUnits s;
     mDeltaMicrosecondsOrUnits := mDeltaMicrosecondsOrUnits s;
     mMillisAtStartMove := mMillisAtStartMove s;
     mMillisForCompleteMove := mMillisForCompleteMove s;
     mServoMoves := mServoMoves s;
     TargetPositionReachedHandler := TargetPositionReachedHandler s |}.

Definition set_mEasingType (v : Z) (s : ServoEasing) : ServoEasing :=
  {| mServoIndex := mServoIndex s; mServoPin := mServoPin s;
     mServo0DegreeMicrosecondsOrUnits := mServo0DegreeMicrosecondsOrUnits s;
     mServo180DegreeMicrosecondsOrUnits := mServo180DegreeMicrosecondsOrUnits s;
     mTrimMicrosecondsOrUnits := mTrimMicrosecondsOrUnits s;
     mOperateServoReverse := mOperateServoReverse s;
     mSpeed := mSpeed s; mEasingType := v;
     mCurrentMicrosecondsOrUnits := mCurrentMicrosecondsOrUnits s;
     mStartMicrosecondsOrUnits := mStartMicrosecondsOrUnits s;
     mEndMicrosecondsOrUnits := mEndMicrosecondsOrUnits s;
     mDeltaMicrosecondsOrUnits := mDeltaMicrosecondsOrUnits s;
     mMillisAtStartMove := mMillisAtStartMove s;
     mMillisForCompleteMove := mMillisForCompleteMove s;
     mServoMoves := mServoMoves s;
     TargetPositionReachedHandler := TargetPositionReachedHandler s |}.


(** The last two assignments of [detach()]. *)
Definition set_detached (invalid : nat) (s : ServoEasing) : ServoEasing :=
  {| mServoIndex := invalid; mServoPin := mServoPin s;
     mServo0DegreeMicrosecondsOrUnits := mServo0DegreeMicrosecondsOrUnits s;
     mServo180DegreeMicrosecondsOrUnits := mServo180DegreeMicrosecondsOrUnits s;
     mTrimMicrosecondsOrUnits := mTrimMicrosecondsOrUnits s;
     mOperateServoReverse := mOperateServoReverse s;
     mSpeed := mSpeed s; mEasingType := mEasingType s;
     mCurrentMicrosecondsOrUnits := mCurrentMicrosecondsOrUnits s;
     mStartMicrosecondsOrUnits := mStartMicrosecondsOrUnits s;
     mEndMicrosecondsOrUnits := mEndMicrosecondsOrUnits s;
     mDeltaMicrosecondsOrUnits := mDeltaMicrosecondsOrUnits s;
     mMillisAtStartMove := mMillisAtStartMove s;
     mMillisForCompleteMove := mMillisForCompleteMove s;
     mServoMoves := false;
     TargetPositionReachedHandler := TargetPositionReachedHandler s |}.

(** [ServoEasingArray] and [sServoArrayMaxIndex] together. *)
Definition set_registry (a : list (option nat)) (top : nat) (w : World) : World :=
  {| objects := objects w; ServoEasingArray := a;
     sServoArrayMaxIndex := top;
     ServoEasingNextPositionArray := ServoEasingNextPositionArray w;
     sInterruptsAreActive := sInterruptsAreActive w; millis := millis w;
     pulses := pulses w; reached := reached w |}.

(** ** Constants named in the comments of the source

    [delay(REFRESH_INTERVAL_MILLIS); // 20 ms] and
    [Timer20ms.setPeriod(REFRESH_INTERVAL_MICROS); // 20000 microsecond period]. *)

Definition REFRESH_INTERVAL_MILLIS : Z := 20.

(** [delay(ms)]: the clock of [millis()] advances by [ms]; it is an unsigned
    32 bit counter. *)
Definition delay (ms : Z) (w : World) : World := set_millis (to_uint32 (millis w + ms)) w.

(** ** Attaching and detaching *)


(** The loop of [detach()]:
    [while (ServoEasingArray[sServoArrayMaxIndex] == NULL && sServoArrayMaxIndex > 0)
       sServoArrayMaxIndex--;] *)
Fixpoint shrinkMaxIndex (a : list (option nat)) (top : nat) : nat :=
  match top with
  | O => O
  | S below =>
      match mjoin (a !! top) with
      | None => shrinkMaxIndex a below
      | Some _ => top
      end
  end.

Section Lifecycle.

Variable hdr : Header.


(** [detach()]; the call of [Servo::detach()] acts on the Servo library
    only. *)
Definition detach (this : nat) (w : World) : World :=
  match objects w !! this with
  | None => w
  | Some s =>
      let w1 :=
        if Nat.eqb (mServoIndex s) (INVALID_SERVO hdr) then w
        else
          let a := <[mServoIndex s := None]> (ServoEasingArray w) in
          set_registry a (shrinkMaxIndex a (sServoArrayMaxIndex w)) w in
      store this (set_detached (INVALID_SERVO hdr) s) w1
  end.

(** ** Trim, direction, easing type *)

Definition setReverseOperation (this : nat) (aOperateServoReverse : bool) (w : World) : World :=
  modify this (set_mOperateServoReverse aOperateServoReverse) w.

Definition setTrimMicrosecondsOrUnits (this : nat) (aTrimMicrosecondsOrUnits : Z)
    (aDoWrite : bool) (w : World) : World :=
  match objects w !! this with
  | None => w
  | Some s =>
      let w1 := store this (set_mTrimMicrosecondsOrUnits aTrimMicrosecondsOrUnits s) w in
      if aDoWrite then writeMicrosecondsOrUnits hdr this (mCurrentMicrosecondsOrUnits s) w1
      else w1
  end.

Definition setTrim (this : nat) (aTrimDegrees : Z) (aDoWrite : bool) (w : World) : World :=
  match objects w !! this with
  | None => w
  | Some s =>
      if aTrimDegrees >=? 0 then
        setTrimMicrosecondsOrUnits this
          (DegreeToMicrosecondsOrUnits hdr s aTrimDegrees
           - mServo0DegreeMicrosecondsOrUnits s) aDoWrite w
      else
        setTrimMicrosecondsOrUnits this
          (- (DegreeToMicrosecondsOrUnits hdr s (- aTrimDegrees)
              - mServo0DegreeMicrosecondsOrUnits s)) aDoWrite w
  end.

Definition setEasingType (this : nat) (aEasingType : Z) (w : World) : World :=
  modify this (set_mEasingType aEasingType) w.

Definition getCurrentAngle (s : ServoEasing) : option Z :=
  MicrosecondsOrUnitsToDegree s (mCurrentMicrosecondsOrUnits s).

Definition getEndMicrosecondsOrUnitsWithTrim (s : ServoEasing) : Z :=
  mEndMicrosecondsOrUnits s + mTrimMicrosecondsOrUnits s.

(** [MicrosecondsOrUnitsToMicroseconds] without the expander. *)
Definition MicrosecondsOrUnitsToMicroseconds (aMicrosecondsOrUnits : Z) : Z :=
  aMicrosecondsOrUnits.

Definition noMovement (this : nat) (aMillisToWait : Z) (w : World) : World * bool :=
  match objects w !! this with
  | None => (w, true)
  | Some s =>
      startEaseToD hdr this
        (MicrosecondsOrUnitsToMicroseconds (mCurrentMicrosecondsOrUnits s)) aMillisToWait true w
  end.

(** ** Blocking moves *)

Variable TargetPositionReached : nat -> nat -> World -> World.
Variable easedMicrosecondsOrUnits : ServoEasing -> Z -> Z.

(** [do { delay(REFRESH_INTERVAL_MILLIS); } while (!update());] with a bound
    on the number of iterations; [None] when the bound is used up. *)
Fixpoint delayAndUpdateUntilStopped (fuel : nat) (this : nat) (w : World) : option World :=
  match fuel with
  | O => None
  | S fuel' =>
      let (w1, tStopped) :=
        update hdr TargetPositionReached easedMicrosecondsOrUnits this
          (delay REFRESH_INTERVAL_MILLIS w) in
      if tStopped then Some w1 else delayAndUpdateUntilStopped fuel' this w1
  end.

Definition easeToD (fuel : nat) (this : nat) (aDegreeOrMicrosecond aMillisForMove : Z)
    (w : World) : option World :=
  delayAndUpdateUntilStopped fuel this
    (fst (startEaseToD hdr this aDegreeOrMicrosecond aMillisForMove false w)).

Definition easeTo (fuel : nat) (this : nat) (aDegreeOrMicrosecond aDegreesPerSecond : Z)
    (w : World) : option World :=
  r ← startEaseTo hdr this aDegreeOrMicrosecond aDegreesPerSecond false w;
  delayAndUpdateUntilStopped fuel this (fst r).

(** ** The remaining loops over the registry *)

Definition setEasingTypeForAllServos (aEasingType : Z) (w : World) : World :=
  foldl (fun w tServoIndex =>
           match servoAt w tServoIndex with
           | Some p => modify p (set_mEasingType aEasingType) w
           | None => w
           end) w (slots w).

Definition setSpeedForAllServos (aDegreesPerSecond : Z) (w : World) : World :=
  foldl (fun w tServoIndex =>
           match servoAt w tServoIndex with
           | Some p => modify p (set_mSpeed aDegreesPerSecond) w
           | None => w
           end) w (slots w).

Definition writeAllServos (aDegreeOrMicrosecond : Z) (w : World) : World :=
  foldl (fun w tServoIndex =>
           match servoAt w tServoIndex with
           | Some p => write hdr p aDegreeOrMicrosecond w
           | None => w
           end) w (slots w).

(** [setDegreeForAllServos(aNumberOfServos, ...)]: the variable arguments
    are the list [aDegreeValues]; reading more arguments than were passed
    is undefined and outside the model. *)
Definition setDegreeForAllServos (aNumberOfServos : nat) (aDegreeValues : list Z) (w : World)
    : World :=
  set_ServoEasingNextPositionArray
    (foldl (fun a tServoIndex =>
              match aDegreeValues !! tServoIndex with
              | Some v => <[tServoIndex := v]> a
              | None => a
              end) (ServoEasingNextPositionArray w) (seq 0 aNumberOfServos)) w.

(** One iteration of the loop of [setEaseToDForAllServos]. *)
Definition setEaseToDForAllServos_body (aMillisForMove : Z) (acc : World * bool)
    (tServoIndex : nat) : World * bool :=
  let (w, tOneServoIsMoving) := acc in
  match servoAt w tServoIndex with
  | Some p =>
      let (w', r) :=
        startEaseToD hdr p (default 0 (ServoEasingNextPositionArray w !! tServoIndex))
          aMillisForMove false w in
      (w', r || tOneServoIsMoving)
  | None => acc
  end.

Definition setEaseToDForAllServos (aMillisForMove : Z) (w : World) : World * bool :=
  foldl (setEaseToDForAllServos_body aMillisForMove) (w, false) (slots w).

(** The default [handleServoTimerInterrupt()]. *)
Definition handleServoTimerInterrupt (w : World) : World :=
  let (w1, tAllServosStopped) :=
    updateAllServos hdr TargetPositionReached easedMicrosecondsOrUnits w in
  if tAllServosStopped then disableServoEasingInterrupt w1 else w1.

End Lifecycle.

(** ** Unit conversions of the expander build *)



(** ** Vocabulary of the further properties *)

(** The slots above [sServoArrayMaxIndex] are empty, and the slot at
    [sServoArrayMaxIndex] is occupied unless the index is 0: what [attach()]
    and [detach()] keep. *)
Definition registry_tight (w : World) : Prop :=
  (forall i, (sServoArrayMaxIndex w < i)%nat -> servoAt w i = None) /\
  (sServoArrayMaxIndex w = O \/ servoAt w (sServoArrayMaxIndex w) <> None) /\
  (sServoArrayMaxIndex w < length (ServoEasingArray w))%nat.

(** Invariants of the loop of [setEaseToDForAllServos] for the object [s] at
    [p] in slot [j] with the staged position [v]: before the loop reaches
    slot [j] the object and its staged position are untouched
    ([awaitsMove]), afterwards the object is [moved] ([hasMove]). *)
Definition awaitsMove (top p j : nat) (v : Z) (s : ServoEasing) (w : World) : Prop :=
  registry_ok w /\ sServoArrayMaxIndex w = top /\ servoAt w j = Some p /\
  ServoEasingNextPositionArray w !! j = Some v /\ objects w !! p = Some s.

Definition hasMove (top p : nat) (moved : ServoEasing) (w : World) : Prop :=
  registry_ok w /\ sServoArrayMaxIndex w = top /\ objects w !! p = Some moved.

(** The linear interpolation between start and end position after [e]
    milliseconds, computed in [Z] and rounded toward the start: what the
    [int32_t] arithmetic of [update()] yields as long as the product of delta
    and time fits 32 bit. *)
Definition linearPosition (s : ServoEasing) (e : Z) : Z :=
  mStartMicrosecondsOrUnits s
  + (mDeltaMicrosecondsOrUnits s * e) ÷ mMillisForCompleteMove s.

(** * Properties *)

(** ** Basic facts about the store *)

Lemma store_lookup_eq (w : World) (this : nat) (s s' : ServoEasing) :
  objects w !! this = Some s -> objects (store this s' w) !! this = Some s'.
Proof.
  intros Hs. unfold store. simpl.
  apply list_lookup_insert_eq. by eapply lookup_lt_Some.
Qed.

Lemma store_lookup_ne (w : World) (this q : nat) (s' : ServoEasing) :
  q <> this -> objects (store this s' w) !! q = objects w !! q.
Proof. intros Hne. unfold store. simpl. by apply list_lookup_insert_ne. Qed.

Lemma modify_lookup_eq (w : World) (this : nat) (f : ServoEasing -> ServoEasing) :
  objects (modify this f w) !! this = f <$> objects w !! this.
Proof. unfold modify. simpl. apply list_lookup_alter_eq. Qed.

Lemma modify_lookup_ne (w : World) (this q : nat) (f : ServoEasing -> ServoEasing) :
  q <> this -> objects (modify this f w) !! q = objects w !! q.
Proof. intros Hne. unfold modify. simpl. by apply list_lookup_alter_ne. Qed.

Lemma servoAt_set_objects (w : World) (o : list ServoEasing) (i : nat) :
  servoAt (set_objects o w) i = servoAt w i.
Proof. reflexivity. Qed.

(** ** Integer arithmetic *)

Lemma to_int32_id (x : Z) : - 2 ^ 31 <= x < 2 ^ 31 -> to_int32 x = x.
Proof. intros Hx. unfold to_int32. rewrite Z.mod_small; lia. Qed.

Lemma int32_quot_Some (x y : Z) : y <> 0 -> y <> -1 -> int32_quot x y = Some (x ÷ y).
Proof.
  intros H0 H1. unfold int32_quot.
  destruct (Z.eqb_spec y 0); [done|]. destruct (Z.eqb_spec y (-1)); [done|].
  by rewrite andb_false_r.
Qed.

Lemma int32_quot_zero (x : Z) : int32_quot x 0 = None.
Proof. reflexivity. Qed.

(** ** Unit conversion *)

(** With a calibration span other than 0 and -1 every position has a degree
    value; with two equal calibration values none has. *)
Lemma convertible_Some (s : ServoEasing) (a : Z) :
  convertible s -> exists d, MicrosecondsOrUnitsToDegree s a = Some d.
Proof.
  intros (H0 & H1). unfold MicrosecondsOrUnitsToDegree.
  rewrite int32_quot_Some by done. eauto.
Qed.

Lemma flat_has_no_degree (s : ServoEasing) (a : Z) :
  mServo180DegreeMicrosecondsOrUnits s = mServo0DegreeMicrosecondsOrUnits s ->
  MicrosecondsOrUnitsToDegree s a = None.
Proof.
  intros Heq. unfold MicrosecondsOrUnitsToDegree. rewrite Heq, Z.sub_diag.
  apply int32_quot_zero.
Qed.

Section Conversion.

Variable hdr : Header.
Variable s : ServoEasing.

Lemma DegreeToMicrosecondsOrUnits_degree (d : Z) :
  0 <= d -> d < THRESHOLD_VALUE_FOR_INTERPRETING_VALUE_AS_MICROSECONDS hdr ->
  mServo0DegreeMicrosecondsOrUnits s <= mServo180DegreeMicrosecondsOrUnits s ->
  DegreeToMicrosecondsOrUnits hdr s d
  = d * (mServo180DegreeMicrosecondsOrUnits s - mServo0DegreeMicrosecondsOrUnits s) / 180
    + mServo0DegreeMicrosecondsOrUnits s.
Proof.
  intros Hd Ht Hspan. unfold DegreeToMicrosecondsOrUnits, Arduino.map.
  apply Z.ltb_lt in Ht. rewrite Ht.
  rewrite Z.quot_div_nonneg by nia.
  f_equal. f_equal. f_equal; lia.
Qed.

(** With a calibration span above 928, and small enough for the products to
    fit 32 bit, the fixed bias of 928 stays below one degree and the
    conversion to units and back is the identity. *)
Lemma roundtrip_exact_above_928 (d : Z) :
  928 < mServo180DegreeMicrosecondsOrUnits s - mServo0DegreeMicrosecondsOrUnits s ->
  (mServo180DegreeMicrosecondsOrUnits s - mServo0DegreeMicrosecondsOrUnits s) * 180 + 928
  < 2 ^ 31 ->
  0 <= d <= 180 ->
  180 < THRESHOLD_VALUE_FOR_INTERPRETING_VALUE_AS_MICROSECONDS hdr ->
  MicrosecondsOrUnitsToDegree s (DegreeToMicrosecondsOrUnits hdr s d) = Some d.
Proof.
  intros Hspan Hfit Hd Ht.
  rewrite DegreeToMicrosecondsOrUnits_degree by lia.
  unfold MicrosecondsOrUnitsToDegree.
  set (low := mServo0DegreeMicrosecondsOrUnits s) in *.
  set (span := mServo180DegreeMicrosecondsOrUnits s - low) in *.
  pose proof (Z.div_mod (d * span) 180 ltac:(lia)) as Hdm.
  pose proof (Z.mod_pos_bound (d * span) 180 ltac:(lia)) as Hr.
  set (q := d * span / 180) in *.
  set (r := (d * span) mod 180) in *.
  replace (q + low - low) with q by lia.
  assert (Hq : 0 <= q <= span) by nia.
  rewrite (to_int32_id q) by lia.
  rewrite (to_int32_id (q * 180 + 928)) by lia.
  rewrite int32_quot_Some by lia.
  rewrite Z.quot_div_nonneg by nia.
  f_equal. symmetry. apply (Z.div_unique_pos _ _ d (q * 180 + 928 - d * span)); lia.
Qed.

(** With a span of at most 928 the bias alone amounts to a degree or more:
    the round trip of 0 degree does not return 0. *)
Lemma roundtrip_zero_off_below_928 :
  0 < mServo180DegreeMicrosecondsOrUnits s - mServo0DegreeMicrosecondsOrUnits s <= 928 ->
  0 < THRESHOLD_VALUE_FOR_INTERPRETING_VALUE_AS_MICROSECONDS hdr ->
  exists r, MicrosecondsOrUnitsToDegree s (DegreeToMicrosecondsOrUnits hdr s 0) = Some r /\
            1 <= r.
Proof.
  intros Hspan Ht.
  rewrite DegreeToMicrosecondsOrUnits_degree by lia.
  unfold MicrosecondsOrUnitsToDegree.
  set (low := mServo0DegreeMicrosecondsOrUnits s) in *.
  set (span := mServo180DegreeMicrosecondsOrUnits s - low) in *.
  rewrite Z.mul_0_l, Z.div_0_l by lia.
  replace (0 + low - low) with 0 by lia.
  rewrite (to_int32_id 0) by lia. rewrite (to_int32_id (0 * 180 + 928)) by lia.
  rewrite int32_quot_Some by lia.
  eexists. split; [reflexivity|].
  rewrite Z.quot_div_nonneg by lia.
  apply Z.div_le_lower_bound; lia.
Qed.

End Conversion.

(** C3: the round trip through [DegreeToMicrosecondsOrUnits] and
    [MicrosecondsOrUnitsToDegree] evaluated for the calibration pair
    (1000, 1900): 0 degree comes back as 1 and 180 degree as 181, because the
    rounding bias is the constant 928 (half of the default span of 1856)
    and not half of the span of the calibration at hand. *)
Theorem roundtrip_narrow_calibration :
  mServo0DegreeMicrosecondsOrUnits Sample.narrow = 1000 /\
  mServo180DegreeMicrosecondsOrUnits Sample.narrow = 1900 /\
  MicrosecondsOrUnitsToDegree Sample.narrow
    (DegreeToMicrosecondsOrUnits Sample.header Sample.narrow 0) = Some 1 /\
  MicrosecondsOrUnitsToDegree Sample.narrow
    (DegreeToMicrosecondsOrUnits Sample.header Sample.narrow 180) = Some 181.
Proof. repeat split; reflexivity. Qed.

(** ** The pulse-write boundary *)

Lemma writeMicrosecondsOrUnits_attached (hdr : Header) (w : World) (this : nat)
    (s : ServoEasing) (u : Z) :
  objects w !! this = Some s -> mServoIndex s <> INVALID_SERVO hdr ->
  writeMicrosecondsOrUnits hdr this u w
  = Servo_writeMicroseconds (mServoPin s) (pulseOf s u)
      (store this (set_mCurrentMicrosecondsOrUnits u s) w).
Proof.
  intros Hs Hidx. unfold writeMicrosecondsOrUnits. rewrite Hs.
  destruct (Nat.eqb_spec (mServoIndex s) (INVALID_SERVO hdr)) as [|_]; [done|].
  unfold pulseOf, applyTrimAndReverse. by destruct (mOperateServoReverse s).
Qed.

Lemma writeMicrosecondsOrUnits_detached (hdr : Header) (w : World) (this : nat)
    (s : ServoEasing) (u : Z) :
  objects w !! this = Some s -> mServoIndex s = INVALID_SERVO hdr ->
  writeMicrosecondsOrUnits hdr this u w = w.
Proof.
  intros Hs Hidx. unfold writeMicrosecondsOrUnits. rewrite Hs, Hidx.
  by rewrite Nat.eqb_refl.
Qed.

Lemma write_attached (hdr : Header) (w : World) (this : nat) (s : ServoEasing) (v : Z) :
  objects w !! this = Some s -> mServoIndex s <> INVALID_SERVO hdr ->
  write hdr this v w
  = Servo_writeMicroseconds (mServoPin s) (pulseOf s (DegreeToMicrosecondsOrUnits hdr s v))
      (store this
         (set_mCurrentMicrosecondsOrUnits (DegreeToMicrosecondsOrUnits hdr s v) s)
         (set_ServoEasingNextPositionArray
            (<[mServoIndex s := v]> (ServoEasingNextPositionArray w)) w)).
Proof.
  intros Hs Hidx. unfold write. rewrite Hs.
  destruct (Nat.eqb_spec (mServoIndex s) (INVALID_SERVO hdr)) as [|_]; [done|].
  by apply writeMicrosecondsOrUnits_attached.
Qed.

(** The state [startEaseToD] leaves an attached servo in. *)
Lemma startEaseToD_attached (hdr : Header) (w : World) (this : nat) (s : ServoEasing)
    (a d : Z) (b : bool) :
  objects w !! this = Some s -> mServoIndex s <> INVALID_SERVO hdr ->
  exists s',
    objects (fst (startEaseToD hdr this a d b w)) !! this = Some s' /\
    s' = set_move
           (if is_bouncing hdr s then mCurrentMicrosecondsOrUnits s
            else if mEasingType s =? EASE_DUMMY_MOVE hdr then mEndMicrosecondsOrUnits s
                 else DegreeToMicrosecondsOrUnits hdr s a)
           ((if mEasingType s =? EASE_DUMMY_MOVE hdr then mEndMicrosecondsOrUnits s
             else DegreeToMicrosecondsOrUnits hdr s a) - mCurrentMicrosecondsOrUnits s)
           d (mCurrentMicrosecondsOrUnits s) (millis w) s /\
    snd (startEaseToD hdr this a d b w) = negb (mServoMoves s).
Proof.
  intros Hs Hidx. unfold startEaseToD. rewrite Hs.
  destruct (Nat.eqb_spec (mServoIndex s) (INVALID_SERVO hdr)) as [|_]; [done|].
  eexists. split; [|split; [reflexivity|]].
  - assert (Hlt : (this < length (objects w))%nat) by (by eapply lookup_lt_Some).
    destruct (mEasingType s =? EASE_DUMMY_MOVE hdr); simpl;
      destruct (b && _); simpl; by apply list_lookup_insert_eq.
  - simpl. reflexivity.
Qed.

(** C7: [writeMicrosecondsOrUnits] on an attached servo sends the pulse
    [units + trim], mirrored as [high - ((units + trim) - low)] under reverse
    operation, and stores the untrimmed, unmirrored [units] as the current
    position; no other field and no other object changes.
    [DegreeToMicrosecondsOrUnitsWithTrimAndReverse] applies the same
    transform to the mapped degree. *)
Theorem pulse_write_applies_trim_and_reverse (hdr : Header) (w : World) (this : nat)
    (s : ServoEasing) (units degree : Z) :
  objects w !! this = Some s -> mServoIndex s <> INVALID_SERVO hdr ->
  let w' := writeMicrosecondsOrUnits hdr this units w in
  pulses w' = pulses w ++ [(mServoPin s, pulseOf s units)] /\
  pulseOf s units
  = (if mOperateServoReverse s
     then mServo180DegreeMicrosecondsOrUnits s
          - ((units + mTrimMicrosecondsOrUnits s) - mServo0DegreeMicrosecondsOrUnits s)
     else units + mTrimMicrosecondsOrUnits s) /\
  objects w' !! this = Some (set_mCurrentMicrosecondsOrUnits units s) /\
  mCurrentMicrosecondsOrUnits (set_mCurrentMicrosecondsOrUnits units s) = units /\
  (forall q, q <> this -> objects w' !! q = objects w !! q) /\
  DegreeToMicrosecondsOrUnitsWithTrimAndReverse s degree
  = pulseOf s (Arduino.map degree 0 180 (mServo0DegreeMicrosecondsOrUnits s)
                 (mServo180DegreeMicrosecondsOrUnits s)).
Proof.
  intros Hs Hidx w'. subst w'.
  rewrite (writeMicrosecondsOrUnits_attached hdr w this s units Hs Hidx).
  repeat split.
  - simpl. by apply list_lookup_insert_eq, (lookup_lt_Some _ _ s).
  - intros q Hq. simpl. by apply list_lookup_insert_ne.
Qed.

Lemma pulse_write_applies_trim_and_reverse_witness :
  let s := Sample.trimmed in
  let w' := writeMicrosecondsOrUnits Sample.header 0 1000 Sample.trimmedWorld in
  (mTrimMicrosecondsOrUnits s = 25 /\ mOperateServoReverse s = true /\
   pulses w' = [(9, 1919)]) /\
  pulses w' = pulses Sample.trimmedWorld ++ [(mServoPin s, pulseOf s 1000)] /\
  pulseOf s 1000
  = (if mOperateServoReverse s
     then mServo180DegreeMicrosecondsOrUnits s
          - ((1000 + mTrimMicrosecondsOrUnits s) - mServo0DegreeMicrosecondsOrUnits s)
     else 1000 + mTrimMicrosecondsOrUnits s) /\
  objects w' !! 0%nat = Some (set_mCurrentMicrosecondsOrUnits 1000 s) /\
  mCurrentMicrosecondsOrUnits (set_mCurrentMicrosecondsOrUnits 1000 s) = 1000 /\
  (forall q, q <> 0%nat -> objects w' !! q = objects Sample.trimmedWorld !! q) /\
  DegreeToMicrosecondsOrUnitsWithTrimAndReverse s 90
  = pulseOf s (Arduino.map 90 0 180 (mServo0DegreeMicrosecondsOrUnits s)
                 (mServo180DegreeMicrosecondsOrUnits s)).
Proof.
  split; [repeat split; reflexivity|].
  apply (pulse_write_applies_trim_and_reverse Sample.header Sample.trimmedWorld 0
           Sample.trimmed 1000 90).
  - reflexivity.
  - simpl. lia.
Defined.

(** ** Detached servos *)

(** C5, as amended: on a servo whose index is the invalid sentinel, [write]
    and [startEaseToD] return without changing anything; [write] returns
    nothing and [startEaseToD] returns [true].  It is the index that decides:
    the same object with any other index gets a pulse from [write] and is
    set moving by [startEaseToD]. *)
Theorem detached_write_and_start_change_nothing (hdr : Header) (w : World) (this : nat)
    (s : ServoEasing) (aValue aMillis : Z) (aStart : bool) :
  objects w !! this = Some s -> mServoIndex s = INVALID_SERVO hdr ->
  write hdr this aValue w = w /\
  startEaseToD hdr this aValue aMillis aStart w = (w, true) /\
  (forall s', mServoIndex s' <> INVALID_SERVO hdr ->
     pulses (write hdr this aValue (store this s' w))
     = pulses w ++ [(mServoPin s', pulseOf s' (DegreeToMicrosecondsOrUnits hdr s' aValue))] /\
     moves (fst (startEaseToD hdr this aValue aMillis aStart (store this s' w))) this = true).
Proof.
  intros Hs Hidx. split; [|split].
  - unfold write. rewrite Hs, Hidx. by rewrite Nat.eqb_refl.
  - unfold startEaseToD. rewrite Hs, Hidx. by rewrite Nat.eqb_refl.
  - intros s' Hidx'.
    assert (Hs' : objects (store this s' w) !! this = Some s') by (by eapply store_lookup_eq).
    split.
    + by rewrite (write_attached hdr _ this s' aValue Hs' Hidx').
    + destruct (startEaseToD_attached hdr _ this s' aValue aMillis aStart Hs' Hidx')
        as (s1 & Hs1 & -> & _).
      unfold moves. by rewrite Hs1.
Qed.

Lemma detached_write_and_start_change_nothing_witness :
  write Sample.header 0 90 Sample.detachedWorld = Sample.detachedWorld /\
  startEaseToD Sample.header 0 90 1000 true Sample.detachedWorld
  = (Sample.detachedWorld, true) /\
  (forall s', mServoIndex s' <> INVALID_SERVO Sample.header ->
     pulses (write Sample.header 0 90 (store 0 s' Sample.detachedWorld))
     = pulses Sample.detachedWorld
       ++ [(mServoPin s', pulseOf s' (DegreeToMicrosecondsOrUnits Sample.header s' 90))] /\
     moves (fst (startEaseToD Sample.header 0 90 1000 true (store 0 s' Sample.detachedWorld))) 0
     = true).
Proof.
  apply (detached_write_and_start_change_nothing Sample.header Sample.detachedWorld 0
           Sample.detached 90 1000 true); reflexivity.
Defined.

(** C5 as stated fails: [setSpeed] is a public operation and changes the
    state of a detached servo; the value [startEaseToD] returns for a
    detached servo is the value it returns when it starts a move of an
    attached, resting servo, so the return value does not tell the failure;
    and [startEaseTo] on a detached servo whose two calibration values are
    equal divides by zero before the index is tested. *)
Lemma detached_setSpeed_changes_state :
  mServoIndex Sample.detached = INVALID_SERVO Sample.header /\
  objects Sample.detachedWorld !! 0%nat = Some Sample.detached /\
  setSpeed 0 7 Sample.detachedWorld <> Sample.detachedWorld /\
  snd (startEaseToD Sample.header 0 90 1000 false Sample.detachedWorld)
  = snd (startEaseToD Sample.header 0 90 1000 false Sample.restingWorld) /\
  moves (fst (startEaseToD Sample.header 0 90 1000 false Sample.restingWorld)) 0 = true /\
  (mServoIndex <$> objects Sample.flatDetachedWorld !! 0%nat)
  = Some (INVALID_SERVO Sample.header) /\
  startEaseTo Sample.header 0 90 60 false Sample.flatDetachedWorld = None.
Proof.
  repeat split; try reflexivity.
  intros Heq. apply (f_equal objects) in Heq. vm_compute in Heq. discriminate Heq.
Qed.

(** ** Speed and duration *)

(** The degree values [startEaseTo] works with, and the call of
    [startEaseToD] it ends in. *)
Lemma startEaseTo_convertible (hdr : Header) (w : World) (this : nat) (s : ServoEasing)
    (a sp : Z) (b : bool) :
  objects w !! this = Some s -> convertible s ->
  exists tTargetDegree tCurrentDegree,
    (if a >=? THRESHOLD_VALUE_FOR_INTERPRETING_VALUE_AS_MICROSECONDS hdr
     then MicrosecondsToDegree s a else Some a) = Some tTargetDegree /\
    MicrosecondsOrUnitsToDegree s (mCurrentMicrosecondsOrUnits s) = Some tCurrentDegree /\
    millisFromSpeed hdr s a sp
    = Some (to_uint_fast16 hdr
              (Arduino.abs (tTargetDegree - tCurrentDegree) * MILLIS_IN_ONE_SECOND hdr
               ÷ (if sp =? 0 then 1 else sp))) /\
    forall tMillis, millisFromSpeed hdr s a sp = Some tMillis ->
      startEaseTo hdr this a sp b w
      = Some (startEaseToD hdr this a
                (if is_bouncing hdr s then to_uint_fast16 hdr (tMillis * 2) else tMillis)
                b w).
Proof.
  intros Hs Hc.
  destruct (convertible_Some s (mCurrentMicrosecondsOrUnits s) Hc) as (c & Hcur).
  assert (Htar : exists t,
            (if a >=? THRESHOLD_VALUE_FOR_INTERPRETING_VALUE_AS_MICROSECONDS hdr
             then MicrosecondsToDegree s a else Some a) = Some t).
  { destruct (a >=? _); [|eauto]. by apply convertible_Some. }
  destruct Htar as (t & Htar).
  exists t, c. split; [exact Htar|]. split; [exact Hcur|]. split.
  - unfold millisFromSpeed. rewrite Htar, Hcur. reflexivity.
  - intros tMillis Hm. unfold startEaseTo. rewrite Hs, Hm. reflexivity.
Qed.

(** C8: [startEaseTo] with speed 0 is [startEaseTo] with speed 1, for every
    servo and target.  Whenever the conversions to degree have a result, the
    call goes on to [startEaseToD] with the duration derived for speed 1, the
    distance in degree times [MILLIS_IN_ONE_SECOND] (twice that for the
    bouncing style), and for an attached servo the move is started with that
    duration; the value returned is the one of every start, [true] when the
    servo was at rest. *)
Theorem startEaseTo_speed_zero_is_speed_one (hdr : Header) (this : nat)
    (aDegreeOrMicrosecond : Z) (aStartUpdateByInterrupt : bool) (w : World) :
  startEaseTo hdr this aDegreeOrMicrosecond 0 aStartUpdateByInterrupt w
  = startEaseTo hdr this aDegreeOrMicrosecond 1 aStartUpdateByInterrupt w /\
  (forall s, objects w !! this = Some s -> convertible s ->
     exists tTargetDegree tCurrentDegree,
       (if aDegreeOrMicrosecond
           >=? THRESHOLD_VALUE_FOR_INTERPRETING_VALUE_AS_MICROSECONDS hdr
        then MicrosecondsToDegree s aDegreeOrMicrosecond
        else Some aDegreeOrMicrosecond) = Some tTargetDegree /\
       MicrosecondsOrUnitsToDegree s (mCurrentMicrosecondsOrUnits s) = Some tCurrentDegree /\
       let tMillis :=
         to_uint_fast16 hdr
           (Arduino.abs (tTargetDegree - tCurrentDegree) * MILLIS_IN_ONE_SECOND hdr) in
       let tMillisForCompleteMove :=
         if is_bouncing hdr s then to_uint_fast16 hdr (tMillis * 2) else tMillis in
       let r :=
         startEaseToD hdr this aDegreeOrMicrosecond tMillisForCompleteMove
           aStartUpdateByInterrupt w in
       startEaseTo hdr this aDegreeOrMicrosecond 0 aStartUpdateByInterrupt w = Some r /\
       (mServoIndex s <> INVALID_SERVO hdr ->
        snd r = negb (mServoMoves s) /\
        exists s', objects (fst r) !! this = Some s' /\
          mServoMoves s' = true /\
          mMillisForCompleteMove s' = tMillisForCompleteMove /\
          mMillisAtStartMove s' = millis w /\
          mStartMicrosecondsOrUnits s' = mCurrentMicrosecondsOrUnits s)).
Proof.
  split; [reflexivity|]. intros s Hs Hc.
  destruct (startEaseTo_convertible hdr w this s aDegreeOrMicrosecond 0
              aStartUpdateByInterrupt Hs Hc) as (t & c & Htar & Hcur & Hm & Hstart).
  exists t, c. split; [exact Htar|]. split; [exact Hcur|].
  simpl in Hm. rewrite Z.quot_1_r in Hm.
  cbv zeta. split; [by apply Hstart|].
  intros Hidx.
  match goal with |- context [startEaseToD hdr this _ ?d _ w] =>
    destruct (startEaseToD_attached hdr w this s aDegreeOrMicrosecond d
                aStartUpdateByInterrupt Hs Hidx) as (s' & Hs' & Heq & Hret)
  end.
  split; [exact Hret|]. exists s'. split; [exact Hs'|]. by subst s'.
Qed.

Lemma startEaseTo_speed_zero_is_speed_one_witness :
  let s := Sample.servo 0 9 544 2400 1500 in
  startEaseTo Sample.header 0 120 0 false Sample.restingWorld
  = startEaseTo Sample.header 0 120 1 false Sample.restingWorld /\
  exists tTargetDegree tCurrentDegree,
    (if 120 >=? THRESHOLD_VALUE_FOR_INTERPRETING_VALUE_AS_MICROSECONDS Sample.header
     then MicrosecondsToDegree s 120 else Some 120) = Some tTargetDegree /\
    MicrosecondsOrUnitsToDegree s (mCurrentMicrosecondsOrUnits s) = Some tCurrentDegree /\
    let tMillis :=
      to_uint_fast16 Sample.header
        (Arduino.abs (tTargetDegree - tCurrentDegree) * MILLIS_IN_ONE_SECOND Sample.header) in
    let tMillisForCompleteMove :=
      if is_bouncing Sample.header s then to_uint_fast16 Sample.header (tMillis * 2)
      else tMillis in
    let r := startEaseToD Sample.header 0 120 tMillisForCompleteMove false
               Sample.restingWorld in
    startEaseTo Sample.header 0 120 0 false Sample.restingWorld = Some r /\
    (mServoIndex s <> INVALID_SERVO Sample.header ->
     snd r = negb (mServoMoves s) /\
     exists s', objects (fst r) !! 0%nat = Some s' /\
       mServoMoves s' = true /\
       mMillisForCompleteMove s' = tMillisForCompleteMove /\
       mMillisAtStartMove s' = millis Sample.restingWorld /\
       mStartMicrosecondsOrUnits s' = mCurrentMicrosecondsOrUnits s).
Proof.
  destruct (startEaseTo_speed_zero_is_speed_one Sample.header 0 120 false
              Sample.restingWorld) as (Heq & Hmove).
  split; [exact Heq|].
  apply Hmove.
  - reflexivity.
  - split; simpl; lia.
Defined.

Lemma to_uint_fast16_small (hdr : Header) (x : Z) :
  0 <= x < 2 ^ UINT_FAST16_WIDTH hdr -> to_uint_fast16 hdr x = x.
Proof. intros Hx. unfold to_uint_fast16. by apply Z.mod_small. Qed.

(** C6, as amended: for an attached servo with the bouncing call style,
    [startEaseToD] stores the start position as end position and keeps the
    duration it is given; [startEaseTo] stores the same end position and the
    duration derived from speed and distance times 2, the product taken in
    [uint_fast16_t]: it is twice the derived duration when that fits the
    type. *)
Theorem bouncing_move_ends_at_start (hdr : Header) (w : World) (this : nat)
    (s : ServoEasing) (aTarget aMillis aSpeed : Z) (aStart : bool) :
  objects w !! this = Some s -> mServoIndex s <> INVALID_SERVO hdr ->
  is_bouncing hdr s = true ->
  (exists s1,
      objects (fst (startEaseToD hdr this aTarget aMillis aStart w)) !! this = Some s1 /\
      mEndMicrosecondsOrUnits s1 = mCurrentMicrosecondsOrUnits s /\
      mStartMicrosecondsOrUnits s1 = mCurrentMicrosecondsOrUnits s /\
      mMillisForCompleteMove s1 = aMillis /\
      mServoMoves s1 = true) /\
  (convertible s ->
   exists tMillis w2 r s2,
      millisFromSpeed hdr s aTarget aSpeed = Some tMillis /\
      startEaseTo hdr this aTarget aSpeed aStart w = Some (w2, r) /\
      objects w2 !! this = Some s2 /\
      mEndMicrosecondsOrUnits s2 = mCurrentMicrosecondsOrUnits s /\
      mStartMicrosecondsOrUnits s2 = mCurrentMicrosecondsOrUnits s /\
      mMillisForCompleteMove s2 = to_uint_fast16 hdr (tMillis * 2) /\
      (tMillis * 2 < 2 ^ UINT_FAST16_WIDTH hdr -> 0 <= UINT_FAST16_WIDTH hdr ->
       mMillisForCompleteMove s2 = 2 * tMillis) /\
      mServoMoves s2 = true).
Proof.
  intros Hs Hidx Hb. split.
  - destruct (startEaseToD_attached hdr w this s aTarget aMillis aStart Hs Hidx)
      as (s1 & Hl & -> & _).
    eexists. split; [exact Hl|]. rewrite Hb. by repeat split.
  - intros Hc.
    destruct (startEaseTo_convertible hdr w this s aTarget aSpeed aStart Hs Hc)
      as (t & c & _ & _ & Hm & Hstart).
    specialize (Hstart _ Hm). rewrite Hb in Hstart.
    set (tMillis := to_uint_fast16 hdr _) in *.
    destruct (startEaseToD_attached hdr w this s aTarget
                (to_uint_fast16 hdr (tMillis * 2)) aStart Hs Hidx)
      as (s2 & Hl & Heq & _).
    destruct (startEaseToD hdr this aTarget (to_uint_fast16 hdr (tMillis * 2)) aStart w)
      as [w2 r] eqn:HD.
    exists tMillis, w2, r, s2. split; [exact Hm|]. split; [exact Hstart|].
    split; [exact Hl|]. subst s2. rewrite Hb. repeat split.
    intros Hsmall Hw. simpl. rewrite to_uint_fast16_small; [lia|].
    split; [|done].
    assert (0 <= tMillis); [|lia].
    unfold tMillis, to_uint_fast16.
    apply Z.mod_pos_bound. by apply Z.pow_pos_nonneg.
Qed.

Lemma bouncing_move_ends_at_start_witness :
  (exists s1,
      objects (fst (startEaseToD Sample.header 0 90 3000 false Sample.bouncingWorld)) !! 0%nat
      = Some s1 /\
      mEndMicrosecondsOrUnits s1 = mCurrentMicrosecondsOrUnits Sample.bouncing /\
      mStartMicrosecondsOrUnits s1 = mCurrentMicrosecondsOrUnits Sample.bouncing /\
      mMillisForCompleteMove s1 = 3000 /\
      mServoMoves s1 = true) /\
  (exists tMillis w2 r s2,
      millisFromSpeed Sample.header Sample.bouncing 90 60 = Some tMillis /\
      startEaseTo Sample.header 0 90 60 false Sample.bouncingWorld = Some (w2, r) /\
      objects w2 !! 0%nat = Some s2 /\
      mEndMicrosecondsOrUnits s2 = mCurrentMicrosecondsOrUnits Sample.bouncing /\
      mStartMicrosecondsOrUnits s2 = mCurrentMicrosecondsOrUnits Sample.bouncing /\
      mMillisForCompleteMove s2 = to_uint_fast16 Sample.header (tMillis * 2) /\
      (tMillis * 2 < 2 ^ UINT_FAST16_WIDTH Sample.header ->
       0 <= UINT_FAST16_WIDTH Sample.header ->
       mMillisForCompleteMove s2 = 2 * tMillis) /\
      mServoMoves s2 = true).
Proof.
  destruct (bouncing_move_ends_at_start Sample.header Sample.bouncingWorld 0 Sample.bouncing
              90 3000 60 false) as (HD & HS).
  - reflexivity.
  - simpl. lia.
  - reflexivity.
  - split; [exact HD|]. apply HS. split; simpl; lia.
Defined.

(** C6 as stated fails where the doubled duration does not fit
    [uint_fast16_t]: with 16 bit, the bouncing servo resting at 1000
    microseconds (44 degree) and sent to 180 degree at 4 degree per second
    has the derived duration 34000 ms, and [startEaseTo] stores 2464, which
    is 68000 modulo 65536, not 68000. *)
Lemma bouncing_duration_wraps_at_16_bit :
  UINT_FAST16_WIDTH Sample.header = 16 /\
  is_bouncing Sample.header Sample.bouncing = true /\
  millisFromSpeed Sample.header Sample.bouncing 180 4 = Some 34000 /\
  (exists w2 r,
     startEaseTo Sample.header 0 180 4 false Sample.bouncingWorld = Some (w2, r) /\
     (mMillisForCompleteMove <$> objects w2 !! 0%nat) = Some 2464) /\
  2464 <> 2 * 34000.
Proof.
  split; [reflexivity|]. split; [reflexivity|]. split; [reflexivity|].
  split; [|lia]. eexists _, _. split; reflexivity.
Qed.

(** ** The tick *)

Lemma set_mCurrentMicrosecondsOrUnits_id (s : ServoEasing) :
  set_mCurrentMicrosecondsOrUnits (mCurrentMicrosecondsOrUnits s) s = s.
Proof. by destruct s. Qed.

Lemma set_mCurrentMicrosecondsOrUnits_twice (x y : Z) (s : ServoEasing) :
  set_mCurrentMicrosecondsOrUnits x (set_mCurrentMicrosecondsOrUnits y s)
  = set_mCurrentMicrosecondsOrUnits x s.
Proof. reflexivity. Qed.

(** Whatever [writeMicrosecondsOrUnits] does, it touches at most the current
    position of [this], the pulses, and nothing else. *)
Lemma writeMicrosecondsOrUnits_frame (hdr : Header) (w : World) (this : nat)
    (s : ServoEasing) (u : Z) :
  objects w !! this = Some s ->
  let w' := writeMicrosecondsOrUnits hdr this u w in
  (exists x, objects w' !! this = Some (set_mCurrentMicrosecondsOrUnits x s)) /\
  reached w' = reached w /\ millis w' = millis w.
Proof.
  intros Hs w'. subst w'.
  destruct (Nat.eq_dec (mServoIndex s) (INVALID_SERVO hdr)) as [Hidx|Hidx].
  - rewrite (writeMicrosecondsOrUnits_detached hdr w this s u Hs Hidx).
    repeat split. exists (mCurrentMicrosecondsOrUnits s).
    by rewrite set_mCurrentMicrosecondsOrUnits_id.
  - rewrite (writeMicrosecondsOrUnits_attached hdr w this s u Hs Hidx).
    repeat split. exists u. simpl.
    by apply list_lookup_insert_eq, (lookup_lt_Some _ _ s).
Qed.

Section Tick.

Variable hdr : Header.
Variable H : nat -> nat -> World -> World.
Variable eased : ServoEasing -> Z -> Z.

(** A servo that does not move is left alone. *)
Lemma update_idle (w : World) (this : nat) :
  moves w this = false -> update hdr H eased this w = (w, true).
Proof.
  unfold moves, update. destruct (objects w !! this) as [s|]; [|done].
  by intros ->.
Qed.

(** Before the end of the move only the current position changes. *)
Lemma update_before_end (w : World) (this : nat) (s : ServoEasing) :
  objects w !! this = Some s -> mServoMoves s = true ->
  elapsed s (millis w) < mMillisForCompleteMove s ->
  let r := update hdr H eased this w in
  (exists x, objects (fst r) !! this = Some (set_mCurrentMicrosecondsOrUnits x s)) /\
  reached (fst r) = reached w /\ snd r = false.
Proof.
  intros Hs Hm Hlt r. subst r. unfold update. rewrite Hs, Hm. simpl.
  fold (elapsed s (millis w)).
  destruct (Z.geb_spec (elapsed s (millis w)) (mMillisForCompleteMove s)) as [Hge|_];
    [lia|].
  match goal with |- context [if ?c then w else _] => destruct c end; simpl.
  - repeat split. exists (mCurrentMicrosecondsOrUnits s).
    by rewrite set_mCurrentMicrosecondsOrUnits_id.
  - match goal with |- context [writeMicrosecondsOrUnits hdr this ?u w] =>
      destruct (writeMicrosecondsOrUnits_frame hdr w this s u Hs) as (Hx & Hr & _)
    end.
    by repeat split.
Qed.

(** The state a run of ticks before the end of the move leads to. *)
Lemma run_ticks_before_end (pre : list Z) (w : World) (this : nat) (s : ServoEasing) :
  (exists x, objects w !! this = Some (set_mCurrentMicrosecondsOrUnits x s)) ->
  mServoMoves s = true ->
  Forall (fun t' => elapsed s t' < mMillisForCompleteMove s) pre ->
  let wk := run_ticks hdr H eased this pre w in
  (exists x, objects wk !! this = Some (set_mCurrentMicrosecondsOrUnits x s)) /\
  reached wk = reached w.
Proof.
  intros Hs Hm Hpre. revert w Hs.
  induction Hpre as [|t pre Ht _ IH]; intros w Hs; simpl; [done|].
  destruct Hs as (x & Hx).
  destruct (update_before_end (set_millis t w) this _ Hx Hm Ht) as (Hy & Hr & _).
  fold (tick hdr H eased this w t) in Hy, Hr.
  destruct (IH (tick hdr H eased this w t) Hy) as (Hz & Hr').
  split; [exact Hz|]. by rewrite Hr', Hr.
Qed.

(** The tick at or after the end of the move. *)
Lemma update_at_end (w : World) (this : nat) (s : ServoEasing) :
  objects w !! this = Some s -> mServoMoves s = true ->
  mMillisForCompleteMove s <= elapsed s (millis w) ->
  update hdr H eased this w
  = let w2 := modify this (set_mServoMoves false)
                (writeMicrosecondsOrUnits hdr this (mEndMicrosecondsOrUnits s) w) in
    match TargetPositionReachedHandler s with
    | Some h =>
        let w3 := H h this (set_reached (reached w2 ++ [(h, this)]) w2) in
        (w3, negb (moves w3 this))
    | None => (w2, true)
    end.
Proof.
  intros Hs Hm Hge. unfold update. rewrite Hs, Hm. simpl.
  fold (elapsed s (millis w)).
  destruct (Z.geb_spec (elapsed s (millis w)) (mMillisForCompleteMove s)) as [_|]; [|lia].
  destruct (TargetPositionReachedHandler s) as [h|]; [done|].
  f_equal. unfold moves. rewrite modify_lookup_eq.
  destruct (writeMicrosecondsOrUnits_frame hdr w this s (mEndMicrosecondsOrUnits s) Hs)
    as ((x & ->) & _). done.
Qed.

End Tick.

(** C2, as amended: whatever ticks ran before the end of the move, the tick
    of an attached moving servo at an elapsed time of at least
    [mMillisForCompleteMove] sends the pulse of [mEndMicrosecondsOrUnits],
    stores it as current position and clears the moving flag; with no
    handler registered this is the resulting state and [update] returns
    [true]; with a handler registered the handler runs on that state and
    [update] returns the negation of the moving flag the handler leaves. *)
Theorem update_at_end_writes_target (hdr : Header) (H : nat -> nat -> World -> World)
    (eased : ServoEasing -> Z -> Z) (w : World) (this : nat) (s : ServoEasing)
    (pre : list Z) (t : Z) :
  objects w !! this = Some s -> mServoIndex s <> INVALID_SERVO hdr ->
  mServoMoves s = true ->
  Forall (fun t' => elapsed s t' < mMillisForCompleteMove s) pre ->
  mMillisForCompleteMove s <= elapsed s t ->
  let wk := set_millis t (run_ticks hdr H eased this pre w) in
  exists w2,
    objects w2 !! this
    = Some (set_mServoMoves false
              (set_mCurrentMicrosecondsOrUnits (mEndMicrosecondsOrUnits s) s)) /\
    pulses w2 = pulses wk ++ [(mServoPin s, pulseOf s (mEndMicrosecondsOrUnits s))] /\
    reached w2 = reached w /\
    update hdr H eased this wk
    = match TargetPositionReachedHandler s with
      | Some h =>
          let w3 := H h this (set_reached (reached w2 ++ [(h, this)]) w2) in
          (w3, negb (moves w3 this))
      | None => (w2, true)
      end.
Proof.
  intros Hs Hidx Hm Hpre Hge wk.
  destruct (run_ticks_before_end hdr H eased pre w this s) as ((x & Hx) & Hr); auto.
  { exists (mCurrentMicrosecondsOrUnits s). by rewrite set_mCurrentMicrosecondsOrUnits_id. }
  assert (Hxk : objects wk !! this = Some (set_mCurrentMicrosecondsOrUnits x s)) by exact Hx.
  rewrite (update_at_end hdr H eased wk this _ Hxk Hm Hge).
  rewrite (writeMicrosecondsOrUnits_attached hdr wk this _ _ Hxk Hidx).
  eexists. split; [|split; [|split; [|reflexivity]]].
  - rewrite modify_lookup_eq. simpl.
    rewrite list_lookup_insert_eq by (by eapply lookup_lt_Some). done.
  - done.
  - simpl. exact Hr.
Qed.

Lemma update_at_end_writes_target_witness :
  let s := Sample.moving 0 9 544 1472 0 1500 (Some 1%nat) in
  let wk :=
    set_millis 1500
      (run_ticks Sample.header Sample.quiet Sample.noEasing 0 [20; 740]
         Sample.finishingWorld) in
  exists w2,
    objects w2 !! 0%nat
    = Some (set_mServoMoves false
              (set_mCurrentMicrosecondsOrUnits (mEndMicrosecondsOrUnits s) s)) /\
    pulses w2 = pulses wk ++ [(mServoPin s, pulseOf s (mEndMicrosecondsOrUnits s))] /\
    reached w2 = reached Sample.finishingWorld /\
    update Sample.header Sample.quiet Sample.noEasing 0 wk
    = match TargetPositionReachedHandler s with
      | Some h =>
          let w3 := Sample.quiet h 0%nat (set_reached (reached w2 ++ [(h, 0%nat)]) w2) in
          (w3, negb (moves w3 0))
      | None => (w2, true)
      end.
Proof.
  apply (update_at_end_writes_target Sample.header Sample.quiet Sample.noEasing
           Sample.finishingWorld 0 (Sample.moving 0 9 544 1472 0 1500 (Some 1%nat))
           [20; 740] 1500).
  - reflexivity.
  - simpl. lia.
  - reflexivity.
  - repeat constructor.
  - vm_compute. discriminate.
Defined.

(** C2 as stated fails: a handler that starts the next move leaves the moving
    flag set, and [update] at the end of the move returns [false]; and for a
    servo without a slot whose moving flag was set again, [update] at the end
    of the move sends no pulse and leaves the current position where it was. *)
Lemma update_at_end_restarted_by_handler :
  objects Sample.finishingWorld !! 0%nat
  = Some (Sample.moving 0 9 544 1472 0 1500 (Some 1%nat)) /\
  mMillisForCompleteMove (Sample.moving 0 9 544 1472 0 1500 (Some 1%nat))
  <= elapsed (Sample.moving 0 9 544 1472 0 1500 (Some 1%nat)) (millis Sample.finishingWorld) /\
  snd (update Sample.header Sample.restart Sample.noEasing 0 Sample.finishingWorld) = false /\
  moves (fst (update Sample.header Sample.restart Sample.noEasing 0 Sample.finishingWorld)) 0
  = true /\
  moves Sample.strayWorld 0 = true /\
  pulses (fst (update Sample.header Sample.quiet Sample.noEasing 0 Sample.strayWorld)) = [] /\
  (mCurrentMicrosecondsOrUnits
     <$> objects (fst (update Sample.header Sample.quiet Sample.noEasing 0 Sample.strayWorld))
           !! 0%nat) = Some 1500 /\
  (mEndMicrosecondsOrUnits <$> objects Sample.strayWorld !! 0%nat) = Some 0.
Proof.
  split; [reflexivity|]. split; [vm_compute; discriminate|]. repeat split; reflexivity.
Qed.

(** What one tick adds to the record of handler invocations. *)
Lemma tick_reached (hdr : Header) (H : nat -> nat -> World -> World)
    (eased : ServoEasing -> Z -> Z) (this : nat) (w : World) (t : Z) :
  (forall h p w0, reached (H h p w0) = reached w0) ->
  reached (tick hdr H eased this w t)
  = reached w
    ++ (if completesMove this w t
        then match handlerOf this w with Some h => [(h, this)] | None => [] end
        else []).
Proof.
  intros Hlog. unfold tick, completesMove, handlerOf.
  destruct (objects w !! this) as [s|] eqn:Hs; simpl.
  - assert (Hs' : objects (set_millis t w) !! this = Some s) by exact Hs.
    destruct (mServoMoves s) eqn:Hm; simpl.
    + destruct (Z.leb_spec (mMillisForCompleteMove s) (elapsed s t)) as [Hle|Hlt].
      * rewrite (update_at_end hdr H eased (set_millis t w) this s Hs' Hm Hle). simpl.
        destruct (writeMicrosecondsOrUnits_frame hdr (set_millis t w) this s
                    (mEndMicrosecondsOrUnits s) Hs') as (_ & Hr & _).
        destruct (TargetPositionReachedHandler s) as [h|]; simpl.
        -- rewrite Hlog. simpl. by rewrite Hr.
        -- rewrite Hr. simpl. by rewrite app_nil_r.
      * destruct (update_before_end hdr H eased (set_millis t w) this s Hs' Hm Hlt)
          as (_ & -> & _).
        simpl. by rewrite app_nil_r.
    + rewrite update_idle; [simpl; by rewrite app_nil_r|]. unfold moves. by rewrite Hs'.
  - unfold update. simpl. rewrite Hs. simpl. by rewrite app_nil_r.
Qed.

(** The record after a run of ticks: one entry for every move completed
    while a handler was registered. *)
Lemma run_ticks_reached (hdr : Header) (H : nat -> nat -> World -> World)
    (eased : ServoEasing -> Z -> Z) (this : nat) (ts : list Z) (w : World) :
  (forall h p w0, reached (H h p w0) = reached w0) ->
  reached (run_ticks hdr H eased this ts w)
  = reached w ++ completedMoves hdr H eased this ts w.
Proof.
  intros Hlog. revert w. induction ts as [|t ts IH]; intros w.
  - simpl. by rewrite app_nil_r.
  - change (run_ticks hdr H eased this (t :: ts) w)
      with (run_ticks hdr H eased this ts (tick hdr H eased this w t)).
    rewrite IH, (tick_reached hdr H eased this w t Hlog). simpl.
    by rewrite <- app_assoc.
Qed.

Lemma startEaseToD_reached (hdr : Header) (this : nat) (a d : Z) (b : bool) (w : World) :
  reached (fst (startEaseToD hdr this a d b w)) = reached w.
Proof.
  unfold startEaseToD. destruct (objects w !! this) as [s|]; [|done].
  destruct (Nat.eqb (mServoIndex s) (INVALID_SERVO hdr)); [done|].
  destruct (negb (mEasingType s =? EASE_DUMMY_MOVE hdr)); simpl;
    by destruct (b && _).
Qed.

(** C4: a tick invokes the registered handler once when it completes a move
    (the servo moves and the elapsed time has reached
    [mMillisForCompleteMove]) and not at all otherwise.  So in a run of ticks
    over a move the handler is not invoked during the ticks before the end of
    the move and is invoked once at the first tick whose elapsed time reaches
    [mMillisForCompleteMove], however many ticks were skipped; the handler
    finds the moving flag cleared, and the ticks after it invoke a handler
    only for the moves completed after it, once each.  When the handler
    leaves the servo at rest, no later tick invokes it.  The record of
    invocations is not engine state, so handlers leave it alone. *)
Theorem handler_invoked_exactly_once (hdr : Header) (H : nat -> nat -> World -> World)
    (eased : ServoEasing -> Z -> Z) (w : World) (this h : nat) (s : ServoEasing)
    (pre : list Z) (t : Z) :
  objects w !! this = Some s -> mServoMoves s = true ->
  TargetPositionReachedHandler s = Some h ->
  Forall (fun t' => elapsed s t' < mMillisForCompleteMove s) pre ->
  mMillisForCompleteMove s <= elapsed s t ->
  (forall h' p w0, reached (H h' p w0) = reached w0) ->
  (forall w0 s0 h0, objects w0 !! this = Some s0 ->
     TargetPositionReachedHandler s0 = Some h0 ->
     reached (fst (update hdr H eased this w0))
     = if mServoMoves s0 && (mMillisForCompleteMove s0 <=? elapsed s0 (millis w0))
       then reached w0 ++ [(h0, this)] else reached w0) /\
  reached (run_ticks hdr H eased this pre w) = reached w /\
  reached (run_ticks hdr H eased this (pre ++ [t]) w) = reached w ++ [(h, this)] /\
  (exists w2, moves w2 this = false /\
     run_ticks hdr H eased this (pre ++ [t]) w = H h this w2) /\
  (forall post,
     reached (run_ticks hdr H eased this (pre ++ t :: post) w)
     = reached w ++ [(h, this)]
       ++ completedMoves hdr H eased this post
            (run_ticks hdr H eased this (pre ++ [t]) w)) /\
  ((forall w0, moves w0 this = false -> moves (H h this w0) this = false) ->
   forall post,
     reached (run_ticks hdr H eased this (pre ++ t :: post) w) = reached w ++ [(h, this)] /\
     moves (run_ticks hdr H eased this (pre ++ t :: post) w) this = false).
Proof.
  intros Hs Hm Hh Hpre Hge Hlog.
  destruct (run_ticks_before_end hdr H eased pre w this s) as ((x & Hx) & Hr); auto.
  { exists (mCurrentMicrosecondsOrUnits s). by rewrite set_mCurrentMicrosecondsOrUnits_id. }
  set (wk := run_ticks hdr H eased this pre w) in *.
  assert (Hsplit : forall l, run_ticks hdr H eased this (pre ++ l) w
                             = run_ticks hdr H eased this l wk).
  { intros l. unfold wk, run_ticks. by rewrite foldl_app. }
  assert (Hend : exists w2, moves w2 this = false /\ reached w2 = reached w ++ [(h, this)] /\
                   tick hdr H eased this wk t = H h this w2).
  { unfold tick.
    rewrite (update_at_end hdr H eased (set_millis t wk) this _ Hx Hm Hge).
    simpl. rewrite Hh. simpl. eexists. split; [|split; [|reflexivity]].
    - unfold moves. simpl. rewrite list_lookup_alter_eq.
      destruct (writeMicrosecondsOrUnits_frame hdr (set_millis t wk) this _
                  (mEndMicrosecondsOrUnits s) Hx) as ((y & ->) & _).
      done.
    - simpl.
      destruct (writeMicrosecondsOrUnits_frame hdr (set_millis t wk) this _
                  (mEndMicrosecondsOrUnits s) Hx) as (_ & -> & _).
      simpl. by rewrite Hr. }
  destruct Hend as (w2 & Hstop & Hlog2 & Htick).
  assert (Hone : reached (run_ticks hdr H eased this (pre ++ [t]) w)
                 = reached w ++ [(h, this)]).
  { rewrite Hsplit. simpl. fold (tick hdr H eased this wk t).
    by rewrite Htick, Hlog. }
  assert (Hpost : forall l w0, moves w0 this = false ->
            reached (run_ticks hdr H eased this l w0) = reached w0 /\
            moves (run_ticks hdr H eased this l w0) this = false).
  { induction l as [|t' l IH]; intros w0 Hw0; [done|].
    change (run_ticks hdr H eased this (t' :: l) w0)
      with (run_ticks hdr H eased this l (tick hdr H eased this w0 t')).
    assert (Ht : tick hdr H eased this w0 t' = set_millis t' w0).
    { unfold tick. by rewrite update_idle. }
    rewrite Ht. by apply (IH (set_millis t' w0)). }
  split; [|split; [exact Hr|split; [exact Hone|split; [|split]]]].
  - intros w0 s0 h0 Hs0 Hh0. destruct (mServoMoves s0) eqn:Hm0; simpl.
    + destruct (Z.leb_spec (mMillisForCompleteMove s0) (elapsed s0 (millis w0))) as [Hle|Hlt].
      * rewrite (update_at_end hdr H eased w0 this s0 Hs0 Hm0 Hle). simpl.
        rewrite Hh0. simpl. rewrite Hlog. simpl.
        by destruct (writeMicrosecondsOrUnits_frame hdr w0 this s0
                       (mEndMicrosecondsOrUnits s0) Hs0) as (_ & -> & _).
      * by destruct (update_before_end hdr H eased w0 this s0 Hs0 Hm0 Hlt) as (_ & -> & _).
    + rewrite update_idle; [done|]. unfold moves. by rewrite Hs0.
  - exists w2. split; [exact Hstop|]. rewrite Hsplit. exact Htick.
  - intros post.
    replace (pre ++ t :: post) with ((pre ++ [t]) ++ post) by (by rewrite <- app_assoc).
    unfold run_ticks at 1. rewrite foldl_app.
    fold (run_ticks hdr H eased this (pre ++ [t]) w).
    fold (run_ticks hdr H eased this post (run_ticks hdr H eased this (pre ++ [t]) w)).
    rewrite (run_ticks_reached hdr H eased this post _ Hlog), Hone.
    by rewrite <- app_assoc.
  - intros Hquiet post. rewrite Hsplit.
    change (run_ticks hdr H eased this (t :: post) wk)
      with (run_ticks hdr H eased this post (tick hdr H eased this wk t)).
    destruct (Hpost post (tick hdr H eased this wk t)) as (Hp1 & Hp2).
    { rewrite Htick. by apply Hquiet. }
    rewrite Hp1. split; [|exact Hp2].
    by rewrite Htick, Hlog.
Qed.

Lemma handler_invoked_exactly_once_witness :
  let w := Sample.finishingWorld in
  let run := run_ticks Sample.header Sample.restart Sample.noEasing 0 in
  (reached (run ([20; 740] ++ 1510 :: [1520; 2600]) w) = [(1%nat, 0%nat); (1%nat, 0%nat)] /\
   completedMoves Sample.header Sample.restart Sample.noEasing 0 [1520; 2600]
     (run ([20; 740] ++ [1510]) w) = [(1%nat, 0%nat)]) /\
  (forall w0 s0 h0, objects w0 !! 0%nat = Some s0 ->
     TargetPositionReachedHandler s0 = Some h0 ->
     reached (fst (update Sample.header Sample.restart Sample.noEasing 0 w0))
     = if mServoMoves s0 && (mMillisForCompleteMove s0 <=? elapsed s0 (millis w0))
       then reached w0 ++ [(h0, 0%nat)] else reached w0) /\
  reached (run [20; 740] w) = reached w /\
  reached (run ([20; 740] ++ [1510]) w) = reached w ++ [(1%nat, 0%nat)] /\
  (exists w2, moves w2 0 = false /\
     run ([20; 740] ++ [1510]) w = Sample.restart 1 0 w2) /\
  (forall post,
     reached (run ([20; 740] ++ 1510 :: post) w)
     = reached w ++ [(1%nat, 0%nat)]
       ++ completedMoves Sample.header Sample.restart Sample.noEasing 0 post
            (run ([20; 740] ++ [1510]) w)) /\
  ((forall w0, moves w0 0 = false -> moves (Sample.restart 1 0 w0) 0 = false) ->
   forall post,
     reached (run ([20; 740] ++ 1510 :: post) w) = reached w ++ [(1%nat, 0%nat)] /\
     moves (run ([20; 740] ++ 1510 :: post) w) 0 = false).
Proof.
  split; [split; reflexivity|].
  apply (handler_invoked_exactly_once Sample.header Sample.restart Sample.noEasing
           Sample.finishingWorld 0 1 (Sample.moving 0 9 544 1472 0 1500 (Some 1%nat))
           [20; 740] 1510).
  - reflexivity.
  - reflexivity.
  - reflexivity.
  - repeat constructor.
  - vm_compute. discriminate.
  - intros h' p w0. apply startEaseToD_reached.
Defined.

(** ** Loops over the registry *)

Lemma elem_of_slots (w : World) (i : nat) : i ∈ slots w <-> (i <= sServoArrayMaxIndex w)%nat.
Proof. unfold slots. rewrite elem_of_seq. lia. Qed.

Lemma moves_modify (w : World) (p q : nat) (f : ServoEasing -> ServoEasing) :
  (forall s, mServoMoves (f s) = mServoMoves s) -> moves (modify p f w) q = moves w q.
Proof.
  intros Hf. unfold moves. destruct (decide (q = p)) as [->|Hne].
  - rewrite modify_lookup_eq. destruct (objects w !! p); simpl; auto.
  - by rewrite modify_lookup_ne.
Qed.

Lemma movingAt_Some (w : World) (i p : nat) :
  movingAt w i = Some p <-> servoAt w i = Some p /\ moves w p = true.
Proof.
  unfold movingAt. destruct (servoAt w i) as [q|].
  - destruct (moves w q) eqn:Hq; split.
    + by intros [= ->].
    + by intros [[= ->] _].
    + done.
    + intros [[= ->] Hp]. congruence.
  - split; [done | by intros [? _]].
Qed.

Lemma movingAt_modify (w : World) (p i : nat) (f : ServoEasing -> ServoEasing) :
  (forall s, mServoMoves (f s) = mServoMoves s) -> movingAt (modify p f w) i = movingAt w i.
Proof.
  intros Hf. unfold movingAt.
  change (servoAt (modify p f w) i) with (servoAt w i).
  destruct (servoAt w i) as [q|]; [|done]. by rewrite moves_modify.
Qed.

Lemma movingServo_at (w : World) (p : nat) (s : ServoEasing) :
  movingServo w p s <->
  exists i, i ∈ slots w /\ movingAt w i = Some p /\ objects w !! p = Some s.
Proof.
  unfold movingServo, registered, moves. split.
  - intros ((i & Hi & Hp) & Hs & Hm). exists i. rewrite elem_of_slots, movingAt_Some.
    unfold moves. rewrite Hs. done.
  - intros (i & Hi & Hp & Hs). apply movingAt_Some in Hp as (Hp & Hm).
    unfold moves in Hm. rewrite Hs in Hm. apply elem_of_slots in Hi. eauto.
Qed.

Section ModifySelected.

(** A loop that applies the field update [f] to every object selected by
    [sel], where [f] is idempotent and does not change the selection. *)
Variable f : ServoEasing -> ServoEasing.
Variable sel : World -> nat -> option nat.
Hypothesis f_idem : forall s, f (f s) = f s.
Hypothesis sel_modify : forall w p i, sel (modify p f w) i = sel w i.

Lemma modify_selected_statics (l : list nat) (w : World) :
  same_statics w
    (foldl (fun w i => match sel w i with Some p => modify p f w | None => w end) w l).
Proof.
  revert w. induction l as [|i l IH]; intros w; simpl.
  - by destruct w.
  - destruct (sel w i) as [p|]; [|apply IH].
    unfold same_statics. etransitivity; [exact (IH (modify p f w)) | reflexivity].
Qed.

Lemma modify_selected_lookup (l : list nat) (w : World) (q : nat) :
  objects (foldl (fun w i => match sel w i with Some p => modify p f w | None => w end) w l)
    !! q
  = if decide (q ∈ omap (sel w) l) then f <$> objects w !! q else objects w !! q.
Proof.
  revert w. induction l as [|i l IH]; intros w.
  - destruct (decide (q ∈ omap (sel w) [])) as [Hin|_]; [|done].
    by apply elem_of_nil in Hin.
  - cbn [foldl]. change (omap (sel w) (i :: l))
      with (match sel w i with Some p => p :: omap (sel w) l | None => omap (sel w) l end).
    destruct (sel w i) as [p|] eqn:Hp; [|apply IH].
    rewrite IH.
    assert (Hsame : omap (sel (modify p f w)) l = omap (sel w) l).
    { apply list_omap_ext, Forall2_same_length_lookup. split; [done|].
      intros k x y Hx Hy. rewrite Hx in Hy. injection Hy as ->. apply sel_modify. }
    rewrite Hsame. destruct (decide (q = p)) as [->|Hne].
    + rewrite modify_lookup_eq.
      rewrite (decide_True (P := p ∈ p :: _)) by (apply elem_of_cons; by left).
      case_decide; [|done].
      destruct (objects w !! p); simpl; [by rewrite f_idem | done].
    + rewrite modify_lookup_ne by done.
      destruct (decide (q ∈ omap (sel w) l)) as [Hin|Hnin].
      * rewrite decide_True; [done|]. apply elem_of_cons. by right.
      * rewrite decide_False; [done|]. rewrite elem_of_cons. by intros [|].
Qed.

End ModifySelected.

Lemma registered_omap (w : World) (p : nat) :
  p ∈ omap (servoAt w) (slots w) <-> registered w p.
Proof.
  rewrite list_elem_of_omap. unfold registered.
  split; intros (i & Hi & Hp); exists i; by rewrite ?elem_of_slots in *.
Qed.

Lemma isOneServoMoving_false (w : World) :
  isOneServoMoving w = false <-> forall p, registered w p -> moves w p = false.
Proof.
  unfold isOneServoMoving. split.
  - intros Hex p (i & Hi & Hp).
    destruct (moves w p) eqn:Hm; [|done]. rewrite <- Hex. symmetry.
    apply existsb_exists. exists i. split.
    + apply list_elem_of_In, elem_of_slots, Hi.
    + by rewrite Hp.
  - intros Hall. destruct (existsb _ _) eqn:Hex; [|done].
    apply existsb_exists in Hex as (i & Hi & Hm).
    apply list_elem_of_In, elem_of_slots in Hi.
    destruct (servoAt w i) as [p|] eqn:Hp; [|done].
    rewrite (Hall p) in Hm; [done|]. by exists i.
Qed.

(** C9: [stopAllServos] clears the moving flag of every registered servo and
    changes nothing else: every other field of these objects, every object
    outside the registry, and all static members, among them
    [sInterruptsAreActive], stay as they are.  [stop] on a servo clears its
    flag and, when no registered servo is left moving, also clears
    [sInterruptsAreActive]. *)
Theorem stopAllServos_only_clears_moving_flags (w : World) :
  let w' := stopAllServos w in
  (forall p s, registered w p -> objects w !! p = Some s ->
     objects w' !! p = Some (set_mServoMoves false s)) /\
  (forall p, ~ registered w p -> objects w' !! p = objects w !! p) /\
  same_statics w w' /\
  sInterruptsAreActive w' = sInterruptsAreActive w /\
  (forall this,
     objects (stop this w) !! this = set_mServoMoves false <$> objects w !! this /\
     ((forall p, registered w p -> p <> this -> moves w p = false) ->
      sInterruptsAreActive (stop this w) = false) /\
     ((exists p, registered w p /\ p <> this /\ moves w p = true) ->
      sInterruptsAreActive (stop this w) = sInterruptsAreActive w)).
Proof.
  intros w'. subst w'. unfold stopAllServos.
  assert (Hl := modify_selected_lookup (set_mServoMoves false) servoAt
                  (fun _ => eq_refl) (fun _ _ _ => eq_refl) (slots w) w).
  assert (Hst := modify_selected_statics (set_mServoMoves false) servoAt (slots w) w).
  split; [|split; [|split; [|split]]].
  - intros p s Hreg Hs. rewrite Hl, decide_True by (by apply registered_omap).
    by rewrite Hs.
  - intros p Hreg. rewrite Hl, decide_False; [done|]. by rewrite registered_omap.
  - exact Hst.
  - by rewrite Hst.
  - intros this.
    set (w1 := modify this (set_mServoMoves false) w).
    assert (Hreg1 : forall p, registered w1 p <-> registered w p) by done.
    assert (Hm1 : forall p, p <> this -> moves w1 p = moves w p).
    { intros p Hp. unfold moves, w1. by rewrite modify_lookup_ne. }
    assert (Hthis : moves w1 this = false).
    { unfold moves, w1. rewrite modify_lookup_eq. by destruct (objects w !! this). }
    unfold stop. fold w1. split; [|split].
    + destruct (isOneServoMoving w1); simpl; apply modify_lookup_eq.
    + intros Hall.
      assert (isOneServoMoving w1 = false) as ->; [|done].
      apply isOneServoMoving_false. intros p Hp%Hreg1.
      destruct (decide (p = this)) as [->|Hne]; [done|].
      rewrite Hm1 by done. by apply Hall.
    + intros (p & Hp & Hne & Hm).
      destruct (isOneServoMoving w1) eqn:Hone; [done|].
      rewrite isOneServoMoving_false in Hone.
      specialize (Hone p (proj2 (Hreg1 p) Hp)). rewrite Hm1 in Hone by done. congruence.
Qed.

(** [stopAllServos] leaves the trigger enabled where [stop] on the last moving
    servo disables it. *)
Example stop_versus_stopAllServos :
  sInterruptsAreActive (stopAllServos Sample.finishingWorld) = true /\
  sInterruptsAreActive (stop 0 Sample.finishingWorld) = false.
Proof. split; reflexivity. Qed.

(** ** Synchronisation *)

(** The scan for the maximum duration and a start time over a list of slots,
    from an arbitrary accumulator. *)
Lemma scan_max_duration (w : World) (l : list nat) (a b : Z) :
  let r := foldl (fun (acc : Z * Z) tServoIndex =>
             let (tMaxMillisForCompleteMove, tMillisAtStartMove) := acc in
             match movingAt w tServoIndex with
             | Some p =>
                 match objects w !! p with
                 | Some s =>
                     (if mMillisForCompleteMove s >? tMaxMillisForCompleteMove
                      then mMillisForCompleteMove s else tMaxMillisForCompleteMove,
                      mMillisAtStartMove s)
                 | None => acc
                 end
             | None => acc
             end) (a, b) l in
  a <= fst r /\
  (forall i p s, i ∈ l -> movingAt w i = Some p -> objects w !! p = Some s ->
     mMillisForCompleteMove s <= fst r) /\
  (fst r = a \/
   exists i p s, i ∈ l /\ movingAt w i = Some p /\ objects w !! p = Some s /\
     mMillisForCompleteMove s = fst r) /\
  ((exists i p s, i ∈ l /\ movingAt w i = Some p /\ objects w !! p = Some s) ->
   exists i p s, i ∈ l /\ movingAt w i = Some p /\ objects w !! p = Some s /\
     mMillisAtStartMove s = snd r).
Proof.
  induction l as [|i l IH] using rev_ind; intros r.
  - subst r. simpl. split; [lia|]. split; [|split; [by left|]].
    + intros i p s Hi. by apply elem_of_nil in Hi.
    + intros (i & p & s & Hi & _). by apply elem_of_nil in Hi.
  - subst r. rewrite foldl_app. cbn [foldl]. cbv zeta in IH.
    destruct (foldl _ (a, b) l) as [mx st] eqn:Hfold. simpl in IH.
    destruct IH as (Hge & Hub & Hatt & Hst).
    destruct (movingAt w i) as [p|] eqn:Hp; [destruct (objects w !! p) as [s|] eqn:Hs|].
    + (* slot [i] holds a moving servo *)
      simpl.
      assert (Hmax : mx <= (if mMillisForCompleteMove s >? mx
                            then mMillisForCompleteMove s else mx)
                     /\ mMillisForCompleteMove s
                        <= (if mMillisForCompleteMove s >? mx
                            then mMillisForCompleteMove s else mx)).
      { destruct (Z.gtb_spec (mMillisForCompleteMove s) mx); lia. }
      split; [lia|]. split; [|split].
      * intros j q t [Hj| ->%list_elem_of_singleton]%elem_of_app Hq Ht.
        -- specialize (Hub j q t Hj Hq Ht). lia.
        -- rewrite Hp in Hq. injection Hq as <-. rewrite Hs in Ht. injection Ht as <-. lia.
      * destruct (Z.gtb_spec (mMillisForCompleteMove s) mx) as [Hgt|Hle].
        -- right. exists i, p, s. rewrite elem_of_app, list_elem_of_singleton. auto.
        -- destruct Hatt as [->|(j & q & t & Hj & Hq & Ht & Hd)]; [by left|].
           right. exists j, q, t. rewrite elem_of_app. auto.
      * intros _. exists i, p, s. rewrite elem_of_app, list_elem_of_singleton. auto.
    + (* dangling pointer: the slot is skipped *)
      apply movingAt_Some in Hp as (_ & Hm). unfold moves in Hm. by rewrite Hs in Hm.
    + simpl. split; [done|]. split; [|split].
      * intros j q t [Hj| ->%list_elem_of_singleton]%elem_of_app Hq Ht; [eauto|congruence].
      * destruct Hatt as [->|(j & q & t & Hj & Hq & Ht & Hd)]; [by left|].
        right. exists j, q, t. rewrite elem_of_app. auto.
      * intros (j & q & t & [Hj| ->%list_elem_of_singleton]%elem_of_app & Hq & Ht);
          [|congruence].
        destruct Hst as (j' & q' & t' & Hj' & Hq' & Ht' & Hd');
          [by exists j, q, t|].
        exists j', q', t'. rewrite elem_of_app. auto.
Qed.

(** C1: after [synchronizeAllServosAndStartInterrupt], every registered
    servo that was moving has the duration [tMax] in [mMillisForCompleteMove]
    and the start time [tStart] in [mMillisAtStartMove], with all its other
    fields unchanged, where [tMax] is the maximum of the durations of the
    moving servos before the call and [tStart] is the start time one of them
    had; objects that were not moving are unchanged. *)
Theorem synchronize_sets_common_duration_and_start (aStart : bool) (w : World) :
  (forall p s, movingServo w p s -> 0 <= mMillisForCompleteMove s) ->
  let w' := synchronizeAllServosAndStartInterrupt aStart w in
  exists tMax tStart,
    (forall p s, movingServo w p s ->
       mMillisForCompleteMove s <= tMax /\
       exists s', objects w' !! p = Some s' /\
         mMillisForCompleteMove s' = tMax /\ mMillisAtStartMove s' = tStart /\
         s' = set_timing tStart tMax s) /\
    ((exists p s, movingServo w p s) ->
     (exists p s, movingServo w p s /\ mMillisForCompleteMove s = tMax) /\
     (exists p s, movingServo w p s /\ mMillisAtStartMove s = tStart)) /\
    (forall p s, objects w !! p = Some s -> mServoMoves s = false ->
       objects w' !! p = Some s) /\
    (forall p, ~ registered w p -> objects w' !! p = objects w !! p) /\
    ServoEasingArray w' = ServoEasingArray w /\
    sServoArrayMaxIndex w' = sServoArrayMaxIndex w /\
    ServoEasingNextPositionArray w' = ServoEasingNextPositionArray w /\
    pulses w' = pulses w /\
    sInterruptsAreActive w' = aStart || sInterruptsAreActive w.
Proof.
  intros Hnonneg w'. subst w'. unfold synchronizeAllServosAndStartInterrupt.
  pose proof (scan_max_duration w (slots w) 0 0) as Hscan. cbv zeta in Hscan.
  fold (findMaxDurationAndStart w) in Hscan.
  destruct (findMaxDurationAndStart w) as [tMax tStart]. simpl in Hscan.
  destruct Hscan as (Hge & Hub & Hatt & Hst).
  exists tMax, tStart.
  assert (Hl := modify_selected_lookup (set_timing tStart tMax) movingAt
                  (fun _ => eq_refl)
                  (fun w0 p i => movingAt_modify w0 p i (set_timing tStart tMax) (fun _ => eq_refl)) (slots w) w).
  assert (Hstat := modify_selected_statics (set_timing tStart tMax) movingAt (slots w) w).
  set (w1 := foldl _ w (slots w)) in *.
  assert (Hobj : forall q, objects (if aStart then enableServoEasingInterrupt w1 else w1) !! q
                           = objects w1 !! q) by (by destruct aStart).
  assert (Hin : forall p, p ∈ omap (movingAt w) (slots w) <->
                          exists s, movingServo w p s).
  { intros p. rewrite list_elem_of_omap. split.
    - intros (i & Hi & Hp). pose proof Hp as (_ & Hm)%movingAt_Some.
      unfold moves in Hm. destruct (objects w !! p) as [s|] eqn:Hs; [|done].
      exists s. apply movingServo_at. eauto.
    - intros (s & (i & Hi & Hp & _)%movingServo_at). eauto. }
  split; [|split; [|split; [|split]]].
  - intros p s Hmv. split.
    + apply movingServo_at in Hmv as (i & Hi & Hp & Hs). eauto.
    + exists (set_timing tStart tMax s). split; [|by repeat split].
      rewrite Hobj, Hl, decide_True by (apply Hin; eauto).
      destruct Hmv as (_ & -> & _). done.
  - intros (p & s & Hmv). split.
    + destruct Hatt as [->|(j & q & t & Hj & Hq & Ht & Hd)].
      * exists p, s. split; [done|].
        pose proof (Hnonneg p s Hmv).
        apply movingServo_at in Hmv as (i & Hi & Hp & Hs).
        specialize (Hub i p s Hi Hp Hs). lia.
      * exists q, t. split; [|done]. apply movingServo_at. eauto.
    + apply movingServo_at in Hmv as (i & Hi & Hp & Hs).
      destruct Hst as (j & q & t & Hj & Hq & Ht & Hd); [by exists i, p, s|].
      exists q, t. split; [|done]. apply movingServo_at. eauto.
  - intros p s Hs Hm. rewrite Hobj, Hl, decide_False; [done|].
    rewrite Hin. intros (s' & _ & Hs' & Hm'). congruence.
  - intros p Hreg. rewrite Hobj, Hl, decide_False; [done|].
    rewrite Hin. intros (s' & Hreg' & _). done.
  - rewrite Hstat. by destruct aStart.
Qed.

Lemma synchronize_sets_common_duration_and_start_witness :
  let w := Sample.mixedWorld in
  let w' := synchronizeAllServosAndStartInterrupt false w in
  exists tMax tStart,
    (forall p s, movingServo w p s ->
       mMillisForCompleteMove s <= tMax /\
       exists s', objects w' !! p = Some s' /\
         mMillisForCompleteMove s' = tMax /\ mMillisAtStartMove s' = tStart /\
         s' = set_timing tStart tMax s) /\
    ((exists p s, movingServo w p s) ->
     (exists p s, movingServo w p s /\ mMillisForCompleteMove s = tMax) /\
     (exists p s, movingServo w p s /\ mMillisAtStartMove s = tStart)) /\
    (forall p s, objects w !! p = Some s -> mServoMoves s = false ->
       objects w' !! p = Some s) /\
    (forall p, ~ registered w p -> objects w' !! p = objects w !! p) /\
    ServoEasingArray w' = ServoEasingArray w /\
    sServoArrayMaxIndex w' = sServoArrayMaxIndex w /\
    ServoEasingNextPositionArray w' = ServoEasingNextPositionArray w /\
    pulses w' = pulses w /\
    sInterruptsAreActive w' = false || sInterruptsAreActive w.
Proof.
  apply (synchronize_sets_common_duration_and_start false Sample.mixedWorld).
  intros p s (_ & Hs & _).
  destruct p as [|[|[|[|p]]]]; [| | | |discriminate Hs];
    injection Hs as <-; simpl; lia.
Defined.

(** The synchronisation of the sample world: both moving servos get the
    duration 1500 and the start time 47 of the last moving servo scanned. *)
Example synchronize_mixedWorld :
  (fun s => (mMillisAtStartMove s, mMillisForCompleteMove s, mServoMoves s))
    <$> objects (synchronizeAllServosAndStartInterrupt false Sample.mixedWorld)
  = [(47, 1500, true); (0, 0, false); (47, 1500, true); (0, 0, false)].
Proof. reflexivity. Qed.

(** ** Staged positions *)



Section StagedTarget.

Variable hdr : Header.
Variables top p j : nat.
Variables v target : Z.






End StagedTarget.


Lemma mixedWorld_registry_ok : registry_ok Sample.mixedWorld.
Proof.
  intros i p s Hi Hp Hs. simpl in Hi.
  destruct i as [|[|[|i]]]; [| | |lia];
    injection Hp as <-; injection Hs as <-; reflexivity.
Qed.




(** * Further properties *)

(** ** Conversions between degree and units *)



(** X2: for a calibration span of 1856, the span the bias of 928 belongs to,
    and positions from the 0 degree value upward for which the scaled offset
    fits 32 bit, the conversion of units to degree returns the nearest
    degree: the result times the span differs from 180 times the offset by at
    most half the span, a tie going to the higher degree. *)
Theorem units_to_degree_rounds_to_nearest_for_default_span (s : ServoEasing) (u : Z) :
  mServo180DegreeMicrosecondsOrUnits s - mServo0DegreeMicrosecondsOrUnits s = 1856 ->
  mServo0DegreeMicrosecondsOrUnits s <= u ->
  (u - mServo0DegreeMicrosecondsOrUnits s) * 180 + 928 < 2 ^ 31 ->
  exists deg,
    MicrosecondsOrUnitsToDegree s u = Some deg /\
    - 928 <= 180 * (u - mServo0DegreeMicrosecondsOrUnits s) - deg * 1856 < 928.
Proof.
  intros Hspan Hu Hfit. unfold MicrosecondsOrUnitsToDegree. rewrite Hspan.
  rewrite (to_int32_id (u - _)) by lia.
  set (x := (u - mServo0DegreeMicrosecondsOrUnits s) * 180 + 928) in *.
  rewrite (to_int32_id x) by lia.
  rewrite int32_quot_Some by lia.
  eexists. split; [reflexivity|].
  rewrite Z.quot_div_nonneg by lia.
  pose proof (Z.div_mod x 1856 ltac:(lia)) as Hdm.
  pose proof (Z.mod_pos_bound x 1856 ltac:(lia)) as Hr.
  lia.
Qed.

Lemma units_to_degree_rounds_to_nearest_for_default_span_witness :
  let s := Sample.servo 0 9 544 2400 1500 in
  exists deg,
    MicrosecondsOrUnitsToDegree s 1477 = Some deg /\
    - 928 <= 180 * (1477 - mServo0DegreeMicrosecondsOrUnits s) - deg * 1856 < 928.
Proof.
  apply (units_to_degree_rounds_to_nearest_for_default_span
           (Sample.servo 0 9 544 2400 1500) 1477); simpl; lia.
Defined.

(** Beyond that range the scaled offset wraps: 12000000 microseconds are
    converted to a negative number of degree. *)
Example units_to_degree_wraps_beyond_32_bit :
  MicrosecondsOrUnitsToDegree (Sample.servo 0 9 544 2400 1500) 12000000
  = Some (- 1150357).
Proof. reflexivity. Qed.

(** X3: for an attached servo with a calibration span above 928, and small
    enough for 180 times the span to fit 32 bit, [write(d)] with a degree [d]
    between 0 and 180 followed by [getCurrentAngle()] gives [d] back. *)
Theorem write_then_getCurrentAngle (hdr : Header) (w : World) (this : nat)
    (s : ServoEasing) (d : Z) :
  objects w !! this = Some s -> mServoIndex s <> INVALID_SERVO hdr ->
  928 < mServo180DegreeMicrosecondsOrUnits s - mServo0DegreeMicrosecondsOrUnits s ->
  (mServo180DegreeMicrosecondsOrUnits s - mServo0DegreeMicrosecondsOrUnits s) * 180 + 928
  < 2 ^ 31 ->
  0 <= d <= 180 ->
  180 < THRESHOLD_VALUE_FOR_INTERPRETING_VALUE_AS_MICROSECONDS hdr ->
  objects (write hdr this d w) !! this ≫= getCurrentAngle = Some d.
Proof.
  intros Hs Hidx Hspan Hfit Hd Ht.
  rewrite (write_attached hdr w this s d Hs Hidx). simpl.
  rewrite list_lookup_insert_eq by (by eapply lookup_lt_Some). simpl.
  unfold getCurrentAngle. simpl.
  change (MicrosecondsOrUnitsToDegree
            (set_mCurrentMicrosecondsOrUnits (DegreeToMicrosecondsOrUnits hdr s d) s)
            (DegreeToMicrosecondsOrUnits hdr s d))
    with (MicrosecondsOrUnitsToDegree s (DegreeToMicrosecondsOrUnits hdr s d)).
  by apply roundtrip_exact_above_928.
Qed.

Lemma write_then_getCurrentAngle_witness :
  objects (write Sample.header 0 77 Sample.restingWorld) !! 0%nat ≫= getCurrentAngle
  = Some 77.
Proof.
  apply (write_then_getCurrentAngle Sample.header Sample.restingWorld 0
           (Sample.servo 0 9 544 2400 1500) 77); simpl; try lia. reflexivity.
Defined.

(** ** Direction and trim *)

(** X4: after [setReverseOperation(true)] on an attached servo without trim,
    [write(0)] sends the pulse of 180 degree and [write(180)] the pulse
    of 0 degree; for every position the pulse sent and the position stored
    add up to the sum of the two calibration values. *)
Theorem reverse_operation_swaps_endpoints (hdr : Header) (w : World) (this : nat)
    (s : ServoEasing) (u : Z) :
  objects w !! this = Some s -> mServoIndex s <> INVALID_SERVO hdr ->
  mTrimMicrosecondsOrUnits s = 0 ->
  180 < THRESHOLD_VALUE_FOR_INTERPRETING_VALUE_AS_MICROSECONDS hdr ->
  let w1 := setReverseOperation this true w in
  pulses (write hdr this 0 w1)
  = pulses w ++ [(mServoPin s, mServo180DegreeMicrosecondsOrUnits s)] /\
  pulses (write hdr this 180 w1)
  = pulses w ++ [(mServoPin s, mServo0DegreeMicrosecondsOrUnits s)] /\
  pulses (writeMicrosecondsOrUnits hdr this u w1)
  = pulses w ++ [(mServoPin s,
                  mServo0DegreeMicrosecondsOrUnits s
                  + mServo180DegreeMicrosecondsOrUnits s - u)] /\
  mCurrentMicrosecondsOrUnits
    <$> objects (writeMicrosecondsOrUnits hdr this u w1) !! this = Some u.
Proof.
  intros Hs Hidx Htrim Ht w1.
  assert (Hs1 : objects w1 !! this = Some (set_mOperateServoReverse true s)).
  { unfold w1, setReverseOperation. by rewrite modify_lookup_eq, Hs. }
  assert (Hlt : (this < length (objects w1))%nat) by (by eapply lookup_lt_Some).
  assert (H0 : DegreeToMicrosecondsOrUnits hdr (set_mOperateServoReverse true s) 0
               = mServo0DegreeMicrosecondsOrUnits s).
  { unfold DegreeToMicrosecondsOrUnits, Arduino.map. simpl.
    destruct (Z.ltb_spec 0 (THRESHOLD_VALUE_FOR_INTERPRETING_VALUE_AS_MICROSECONDS hdr));
      [|lia].
    rewrite Z.sub_0_r, Z.mul_0_l, Z.quot_0_l by lia. lia. }
  assert (H180 : DegreeToMicrosecondsOrUnits hdr (set_mOperateServoReverse true s) 180
                 = mServo180DegreeMicrosecondsOrUnits s).
  { unfold DegreeToMicrosecondsOrUnits, Arduino.map. simpl.
    destruct (Z.ltb_spec 180 (THRESHOLD_VALUE_FOR_INTERPRETING_VALUE_AS_MICROSECONDS hdr));
      [|lia].
    rewrite !Z.sub_0_r, Z.mul_comm, Z.quot_mul by lia. lia. }
  rewrite !(write_attached hdr w1 this _ _ Hs1 Hidx), H0, H180.
  rewrite (writeMicrosecondsOrUnits_attached hdr w1 this _ u Hs1 Hidx).
  unfold pulseOf, applyTrimAndReverse. simpl. rewrite Htrim.
  repeat split; try (f_equal; f_equal; f_equal; lia).
  by rewrite list_lookup_insert_eq.
Qed.

Lemma reverse_operation_swaps_endpoints_witness :
  let s := Sample.servo 0 9 544 2400 1500 in
  let w1 := setReverseOperation 0 true Sample.restingWorld in
  pulses (write Sample.header 0 0 w1) = pulses Sample.restingWorld ++ [(9, 2400)] /\
  pulses (write Sample.header 0 180 w1) = pulses Sample.restingWorld ++ [(9, 544)] /\
  pulses (writeMicrosecondsOrUnits Sample.header 0 1000 w1)
  = pulses Sample.restingWorld ++ [(9, 544 + 2400 - 1000)] /\
  mCurrentMicrosecondsOrUnits
    <$> objects (writeMicrosecondsOrUnits Sample.header 0 1000 w1) !! 0%nat = Some 1000.
Proof.
  apply (reverse_operation_swaps_endpoints Sample.header Sample.restingWorld 0
           (Sample.servo 0 9 544 2400 1500) 1000); simpl; try lia; reflexivity.
Defined.

(** X5: [setTrimMicrosecondsOrUnits(t, true)] on an attached servo stores
    the trim, sends the current position again, now shifted by [t] (and
    mirrored under reverse operation), and leaves the stored current position
    as it was; with [aDoWrite] false it sends nothing. *)
Theorem setTrim_resends_current_position (hdr : Header) (w : World) (this : nat)
    (s : ServoEasing) (t : Z) :
  objects w !! this = Some s -> mServoIndex s <> INVALID_SERVO hdr ->
  let w1 := setTrimMicrosecondsOrUnits hdr this t true w in
  objects w1 !! this = Some (set_mTrimMicrosecondsOrUnits t s) /\
  pulses w1
  = pulses w ++ [(mServoPin s,
                  if mOperateServoReverse s
                  then mServo180DegreeMicrosecondsOrUnits s
                       - (mCurrentMicrosecondsOrUnits s + t
                          - mServo0DegreeMicrosecondsOrUnits s)
                  else mCurrentMicrosecondsOrUnits s + t)] /\
  pulses (setTrimMicrosecondsOrUnits hdr this t false w) = pulses w /\
  objects (setTrimMicrosecondsOrUnits hdr this t false w) !! this
  = Some (set_mTrimMicrosecondsOrUnits t s).
Proof.
  intros Hs Hidx w1. subst w1. unfold setTrimMicrosecondsOrUnits. rewrite Hs.
  assert (Hlt : (this < length (objects w))%nat) by (by eapply lookup_lt_Some).
  assert (Hs1 : objects (store this (set_mTrimMicrosecondsOrUnits t s) w) !! this
                = Some (set_mTrimMicrosecondsOrUnits t s)) by (by eapply store_lookup_eq).
  rewrite (writeMicrosecondsOrUnits_attached hdr _ this _ _ Hs1 Hidx).
  split; [|split; [|split]].
  - simpl. rewrite list_insert_insert_eq. rewrite list_lookup_insert_eq by done.
    by destruct s.
  - simpl. unfold pulseOf, applyTrimAndReverse. simpl. done.
  - done.
  - done.
Qed.

Lemma setTrim_resends_current_position_witness :
  let s := Sample.servo 0 9 544 2400 1500 in
  let w1 := setTrimMicrosecondsOrUnits Sample.header 0 25 true Sample.restingWorld in
  objects w1 !! 0%nat = Some (set_mTrimMicrosecondsOrUnits 25 s) /\
  pulses w1
  = pulses Sample.restingWorld
    ++ [(mServoPin s,
         if mOperateServoReverse s
         then mServo180DegreeMicrosecondsOrUnits s
              - (mCurrentMicrosecondsOrUnits s + 25 - mServo0DegreeMicrosecondsOrUnits s)
         else mCurrentMicrosecondsOrUnits s + 25)] /\
  pulses (setTrimMicrosecondsOrUnits Sample.header 0 25 false Sample.restingWorld)
  = pulses Sample.restingWorld /\
  objects (setTrimMicrosecondsOrUnits Sample.header 0 25 false Sample.restingWorld) !! 0%nat
  = Some (set_mTrimMicrosecondsOrUnits 25 s).
Proof.
  apply (setTrim_resends_current_position Sample.header Sample.restingWorld 0
           (Sample.servo 0 9 544 2400 1500) 25); [reflexivity | simpl; lia].
Defined.

(** X6: [setTrim] takes the trim in degree: 0 degree gives no trim, and a
    negative number of degree gives the negated trim of its absolute value. *)
Theorem setTrim_is_odd_in_degree (hdr : Header) (w : World) (this : nat) (s : ServoEasing)
    (d : Z) :
  objects w !! this = Some s ->
  0 < d < THRESHOLD_VALUE_FOR_INTERPRETING_VALUE_AS_MICROSECONDS hdr ->
  (exists t,
     mTrimMicrosecondsOrUnits <$> objects (setTrim hdr this d false w) !! this = Some t /\
     mTrimMicrosecondsOrUnits <$> objects (setTrim hdr this (- d) false w) !! this
     = Some (- t) /\
     t = d * (mServo180DegreeMicrosecondsOrUnits s - mServo0DegreeMicrosecondsOrUnits s)
         ÷ 180) /\
  mTrimMicrosecondsOrUnits <$> objects (setTrim hdr this 0 false w) !! this = Some 0.
Proof.
  intros Hs Hd.
  assert (Hlt : (this < length (objects w))%nat) by (by eapply lookup_lt_Some).
  assert (Hset : forall t,
            mTrimMicrosecondsOrUnits
              <$> objects (setTrimMicrosecondsOrUnits hdr this t false w) !! this = Some t).
  { intros t. unfold setTrimMicrosecondsOrUnits. rewrite Hs. simpl.
    by rewrite list_lookup_insert_eq. }
  unfold setTrim. rewrite Hs.
  destruct (Z.geb_spec d 0); [|lia]. destruct (Z.geb_spec (- d) 0); [lia|].
  destruct (Z.geb_spec 0 0); [|lia].
  rewrite Z.opp_involutive, !Hset.
  unfold DegreeToMicrosecondsOrUnits, Arduino.map.
  destruct (Z.ltb_spec d (THRESHOLD_VALUE_FOR_INTERPRETING_VALUE_AS_MICROSECONDS hdr));
    [|lia].
  destruct (Z.ltb_spec 0 (THRESHOLD_VALUE_FOR_INTERPRETING_VALUE_AS_MICROSECONDS hdr));
    [|lia].
  rewrite !Z.sub_0_r. split.
  - eexists. split; [reflexivity|]. split; [reflexivity|]. lia.
  - rewrite Z.mul_0_l, Z.quot_0_l by lia. f_equal. lia.
Qed.

Lemma setTrim_is_odd_in_degree_witness :
  let s := Sample.servo 0 9 544 2400 1500 in
  (exists t,
     mTrimMicrosecondsOrUnits
       <$> objects (setTrim Sample.header 0 5 false Sample.restingWorld) !! 0%nat = Some t /\
     mTrimMicrosecondsOrUnits
       <$> objects (setTrim Sample.header 0 (- 5) false Sample.restingWorld) !! 0%nat
     = Some (- t) /\
     t = 5 * (mServo180DegreeMicrosecondsOrUnits s - mServo0DegreeMicrosecondsOrUnits s)
         ÷ 180) /\
  mTrimMicrosecondsOrUnits
    <$> objects (setTrim Sample.header 0 0 false Sample.restingWorld) !! 0%nat = Some 0.
Proof.
  apply (setTrim_is_odd_in_degree Sample.header Sample.restingWorld 0
           (Sample.servo 0 9 544 2400 1500) 5); [reflexivity | simpl; lia].
Defined.

(** ** The linear move *)

Lemma to_int32_small (x : Z) : 0 <= x < 2 ^ 31 -> to_int32 x = x.
Proof. intros Hx. unfold to_int32. rewrite Z.mod_small; lia. Qed.

Lemma elapsed_nonneg (s : ServoEasing) (t : Z) : 0 <= elapsed s t.
Proof. unfold elapsed, to_uint32. apply Z.mod_pos_bound. lia. Qed.

Lemma linearPosition_between (s : ServoEasing) (e : Z) :
  0 <= e < mMillisForCompleteMove s ->
  (0 <= mDeltaMicrosecondsOrUnits s ->
   mStartMicrosecondsOrUnits s <= linearPosition s e
   <= mStartMicrosecondsOrUnits s + mDeltaMicrosecondsOrUnits s) /\
  (mDeltaMicrosecondsOrUnits s <= 0 ->
   mStartMicrosecondsOrUnits s + mDeltaMicrosecondsOrUnits s <= linearPosition s e
   <= mStartMicrosecondsOrUnits s).
Proof.
  intros He. unfold linearPosition.
  set (dl := mDeltaMicrosecondsOrUnits s). set (D := mMillisForCompleteMove s) in *.
  assert (HD : dl * D ÷ D = dl) by (apply Z.quot_mul; lia).
  split; intros Hdl.
  - assert (0 ÷ D <= dl * e ÷ D) by (apply Z.quot_le_mono; [lia|nia]).
    assert (dl * e ÷ D <= dl * D ÷ D) by (apply Z.quot_le_mono; [lia|nia]).
    rewrite Z.quot_0_l in * by lia. lia.
  - assert (dl * e ÷ D <= 0 ÷ D) by (apply Z.quot_le_mono; [lia|nia]).
    assert (dl * D ÷ D <= dl * e ÷ D) by (apply Z.quot_le_mono; [lia|nia]).
    rewrite Z.quot_0_l in * by lia. lia.
Qed.

Lemma linearPosition_monotone (s : ServoEasing) (e1 e2 : Z) :
  0 < mMillisForCompleteMove s -> e1 <= e2 ->
  (0 <= mDeltaMicrosecondsOrUnits s -> linearPosition s e1 <= linearPosition s e2) /\
  (mDeltaMicrosecondsOrUnits s <= 0 -> linearPosition s e2 <= linearPosition s e1).
Proof.
  intros HD He. unfold linearPosition.
  split; intros Hdl; apply Z.add_le_mono_l, Z.quot_le_mono; try lia; nia.
Qed.

(** The tick of a linear move before its end. *)
Lemma update_linear_before_end (hdr : Header) (H : nat -> nat -> World -> World)
    (eased : ServoEasing -> Z -> Z) (w : World) (this : nat) (s : ServoEasing) :
  objects w !! this = Some s -> mServoIndex s <> INVALID_SERVO hdr ->
  mServoMoves s = true -> mEasingType s = EASE_LINEAR hdr ->
  elapsed s (millis w) < mMillisForCompleteMove s -> mMillisForCompleteMove s < 2 ^ 31 ->
  Z.abs (mDeltaMicrosecondsOrUnits s) * mMillisForCompleteMove s < 2 ^ 31 ->
  update hdr H eased this w
  = (if linearPosition s (elapsed s (millis w)) =? mCurrentMicrosecondsOrUnits s then w
     else Servo_writeMicroseconds (mServoPin s)
            (pulseOf s (linearPosition s (elapsed s (millis w))))
            (store this
               (set_mCurrentMicrosecondsOrUnits (linearPosition s (elapsed s (millis w))) s)
               w),
     false).
Proof.
  intros Hs Hidx Hm Hlin Hlt HD Hfit. unfold update. rewrite Hs, Hm. simpl.
  fold (elapsed s (millis w)).
  pose proof (elapsed_nonneg s (millis w)) as He.
  destruct (Z.geb_spec (elapsed s (millis w)) (mMillisForCompleteMove s)); [lia|].
  rewrite Hlin, Z.eqb_refl.
  rewrite (to_int32_id (elapsed s (millis w))) by lia.
  rewrite (to_int32_id (mMillisForCompleteMove s)) by lia.
  rewrite (to_int32_id (mDeltaMicrosecondsOrUnits s * elapsed s (millis w)))
    by (destruct (Z.abs_spec (mDeltaMicrosecondsOrUnits s)) as [[? ?]|[? ?]]; nia).
  fold (linearPosition s (elapsed s (millis w))).
  destruct (_ =? _); [done|].
  by rewrite (writeMicrosecondsOrUnits_attached hdr w this s _ Hs Hidx).
Qed.

(** X7: a tick of an attached servo in a linear move, before the end of the
    move and with the product of delta and duration fitting 32 bit, stores
    the position [start + delta * elapsed / duration] (division truncating),
    which lies between the start and the end position of the move: such a
    linear move never overshoots.  It returns "still moving". *)
Theorem linear_update_stays_between_start_and_end (hdr : Header)
    (H : nat -> nat -> World -> World) (eased : ServoEasing -> Z -> Z) (w : World)
    (this : nat) (s : ServoEasing) :
  objects w !! this = Some s -> mServoIndex s <> INVALID_SERVO hdr ->
  mServoMoves s = true -> mEasingType s = EASE_LINEAR hdr ->
  elapsed s (millis w) < mMillisForCompleteMove s -> mMillisForCompleteMove s < 2 ^ 31 ->
  Z.abs (mDeltaMicrosecondsOrUnits s) * mMillisForCompleteMove s < 2 ^ 31 ->
  let r := update hdr H eased this w in
  let x := mStartMicrosecondsOrUnits s
           + mDeltaMicrosecondsOrUnits s * elapsed s (millis w) ÷ mMillisForCompleteMove s in
  snd r = false /\
  objects (fst r) !! this = Some (set_mCurrentMicrosecondsOrUnits x s) /\
  Z.min (mStartMicrosecondsOrUnits s)
    (mStartMicrosecondsOrUnits s + mDeltaMicrosecondsOrUnits s) <= x /\
  x <= Z.max (mStartMicrosecondsOrUnits s)
         (mStartMicrosecondsOrUnits s + mDeltaMicrosecondsOrUnits s).
Proof.
  intros Hs Hidx Hm Hlin Hlt HD Hfit r x. subst r.
  rewrite (update_linear_before_end hdr H eased w this s Hs Hidx Hm Hlin Hlt HD Hfit).
  fold (linearPosition s (elapsed s (millis w))) in x. subst x.
  pose proof (elapsed_nonneg s (millis w)) as He.
  destruct (linearPosition_between s (elapsed s (millis w)) ltac:(lia)) as (Hup & Hdown).
  split; [done|]. split.
  - simpl. destruct (Z.eqb_spec (linearPosition s (elapsed s (millis w)))
                       (mCurrentMicrosecondsOrUnits s)) as [->|_].
    + by rewrite set_mCurrentMicrosecondsOrUnits_id.
    + simpl. by apply list_lookup_insert_eq, (lookup_lt_Some _ _ s).
  - destruct (Z.le_ge_cases 0 (mDeltaMicrosecondsOrUnits s)); lia.
Qed.

Lemma linear_update_stays_between_start_and_end_witness :
  let s := Sample.moving 0 9 544 1472 0 1500 (Some 1%nat) in
  let w := set_millis 750 Sample.finishingWorld in
  let r := update Sample.header Sample.quiet Sample.noEasing 0 w in
  let x := mStartMicrosecondsOrUnits s
           + mDeltaMicrosecondsOrUnits s * elapsed s (millis w) ÷ mMillisForCompleteMove s in
  snd r = false /\
  objects (fst r) !! 0%nat = Some (set_mCurrentMicrosecondsOrUnits x s) /\
  Z.min (mStartMicrosecondsOrUnits s)
    (mStartMicrosecondsOrUnits s + mDeltaMicrosecondsOrUnits s) <= x /\
  x <= Z.max (mStartMicrosecondsOrUnits s)
         (mStartMicrosecondsOrUnits s + mDeltaMicrosecondsOrUnits s).
Proof.
  apply (linear_update_stays_between_start_and_end Sample.header Sample.quiet
           Sample.noEasing (set_millis 750 Sample.finishingWorld) 0
           (Sample.moving 0 9 544 1472 0 1500 (Some 1%nat)));
    try reflexivity; simpl; lia.
Defined.

(** X8: in a linear move of an attached servo, with the product of delta
    and duration fitting 32 bit, the position stored by a tick is monotone in
    the clock: of two ticks before the end of the move, the later one stores
    a position at least as far from the start, in the direction of the
    move. *)
Theorem linear_update_is_monotone_in_time (hdr : Header) (H : nat -> nat -> World -> World)
    (eased : ServoEasing -> Z -> Z) (w : World) (this : nat) (s : ServoEasing) (t1 t2 : Z) :
  objects w !! this = Some s -> mServoIndex s <> INVALID_SERVO hdr ->
  mServoMoves s = true -> mEasingType s = EASE_LINEAR hdr ->
  elapsed s t1 <= elapsed s t2 -> elapsed s t2 < mMillisForCompleteMove s ->
  mMillisForCompleteMove s < 2 ^ 31 ->
  Z.abs (mDeltaMicrosecondsOrUnits s) * mMillisForCompleteMove s < 2 ^ 31 ->
  exists x1 x2,
    mCurrentMicrosecondsOrUnits
      <$> objects (fst (update hdr H eased this (set_millis t1 w))) !! this = Some x1 /\
    mCurrentMicrosecondsOrUnits
      <$> objects (fst (update hdr H eased this (set_millis t2 w))) !! this = Some x2 /\
    (0 <= mDeltaMicrosecondsOrUnits s -> x1 <= x2) /\
    (mDeltaMicrosecondsOrUnits s <= 0 -> x2 <= x1).
Proof.
  intros Hs Hidx Hm Hlin H12 H2 HD Hfit.
  assert (Hpos : forall t, elapsed s t < mMillisForCompleteMove s ->
            mCurrentMicrosecondsOrUnits
              <$> objects (fst (update hdr H eased this (set_millis t w))) !! this
            = Some (linearPosition s (elapsed s t))).
  { intros t Ht.
    rewrite (update_linear_before_end hdr H eased (set_millis t w) this s Hs Hidx Hm Hlin Ht HD
               Hfit).
    simpl. destruct (Z.eqb_spec (linearPosition s (elapsed s t))
                       (mCurrentMicrosecondsOrUnits s)) as [->|_].
    - simpl. by rewrite Hs.
    - simpl. by rewrite list_lookup_insert_eq by (by eapply lookup_lt_Some). }
  exists (linearPosition s (elapsed s t1)), (linearPosition s (elapsed s t2)).
  split; [apply Hpos; lia|]. split; [by apply Hpos|].
  pose proof (elapsed_nonneg s t1).
  apply linearPosition_monotone; lia.
Qed.

Lemma linear_update_is_monotone_in_time_witness :
  exists x1 x2,
    mCurrentMicrosecondsOrUnits
      <$> objects (fst (update Sample.header Sample.quiet Sample.noEasing 0
                          (set_millis 400 Sample.finishingWorld))) !! 0%nat = Some x1 /\
    mCurrentMicrosecondsOrUnits
      <$> objects (fst (update Sample.header Sample.quiet Sample.noEasing 0
                          (set_millis 900 Sample.finishingWorld))) !! 0%nat = Some x2 /\
    (0 <= mDeltaMicrosecondsOrUnits (Sample.moving 0 9 544 1472 0 1500 (Some 1%nat)) ->
     x1 <= x2) /\
    (mDeltaMicrosecondsOrUnits (Sample.moving 0 9 544 1472 0 1500 (Some 1%nat)) <= 0 ->
     x2 <= x1).
Proof.
  apply (linear_update_is_monotone_in_time Sample.header Sample.quiet Sample.noEasing
           Sample.finishingWorld 0 (Sample.moving 0 9 544 1472 0 1500 (Some 1%nat)) 400 900);
    try reflexivity; try (simpl; lia); vm_compute; intros; discriminate.
Defined.

(** X9: a tick of an attached servo in a linear move, before the end of the
    move and with the product of delta and duration fitting 32 bit, sends a
    pulse only when the position changes: when the position computed equals
    the stored current position the tick leaves the whole state as it is,
    otherwise it sends exactly one pulse, that of the new position. *)
Theorem linear_update_writes_only_changes (hdr : Header) (H : nat -> nat -> World -> World)
    (eased : ServoEasing -> Z -> Z) (w : World) (this : nat) (s : ServoEasing) :
  objects w !! this = Some s -> mServoIndex s <> INVALID_SERVO hdr ->
  mServoMoves s = true -> mEasingType s = EASE_LINEAR hdr ->
  elapsed s (millis w) < mMillisForCompleteMove s -> mMillisForCompleteMove s < 2 ^ 31 ->
  Z.abs (mDeltaMicrosecondsOrUnits s) * mMillisForCompleteMove s < 2 ^ 31 ->
  let x := mStartMicrosecondsOrUnits s
           + mDeltaMicrosecondsOrUnits s * elapsed s (millis w) ÷ mMillisForCompleteMove s in
  (x = mCurrentMicrosecondsOrUnits s -> fst (update hdr H eased this w) = w) /\
  (x <> mCurrentMicrosecondsOrUnits s ->
   pulses (fst (update hdr H eased this w)) = pulses w ++ [(mServoPin s, pulseOf s x)]).
Proof.
  intros Hs Hidx Hm Hlin Hlt HD Hfit x.
  rewrite (update_linear_before_end hdr H eased w this s Hs Hidx Hm Hlin Hlt HD Hfit).
  fold (linearPosition s (elapsed s (millis w))) in x. subst x. simpl.
  destruct (Z.eqb_spec (linearPosition s (elapsed s (millis w)))
              (mCurrentMicrosecondsOrUnits s)); split; done.
Qed.

Lemma linear_update_writes_only_changes_witness :
  let s := Sample.moving 0 9 544 1472 0 1500 (Some 1%nat) in
  let w := set_millis 1 Sample.finishingWorld in
  let x := mStartMicrosecondsOrUnits s
           + mDeltaMicrosecondsOrUnits s * elapsed s (millis w) ÷ mMillisForCompleteMove s in
  (x = mCurrentMicrosecondsOrUnits s ->
   fst (update Sample.header Sample.quiet Sample.noEasing 0 w) = w) /\
  (x <> mCurrentMicrosecondsOrUnits s ->
   pulses (fst (update Sample.header Sample.quiet Sample.noEasing 0 w))
   = pulses w ++ [(mServoPin s, pulseOf s x)]).
Proof.
  apply (linear_update_writes_only_changes Sample.header Sample.quiet Sample.noEasing
           (set_millis 1 Sample.finishingWorld) 0
           (Sample.moving 0 9 544 1472 0 1500 (Some 1%nat)));
    try reflexivity; simpl; lia.
Defined.

(** Where the product of delta and elapsed time exceeds 32 bit it wraps: a
    move from 544 to 2400 in 2000 seconds is at -489 after 1200 seconds. *)
Example linear_update_wraps_beyond_32_bit :
  let w :=
    Sample.world [Sample.moving 0 9 544 2400 0 2000000 None] [Some 0%nat; None; None] 0
      1200000 in
  mCurrentMicrosecondsOrUnits
    <$> objects (fst (update Sample.header Sample.quiet Sample.noEasing 0 w)) !! 0%nat
  = Some (- 489).
Proof. reflexivity. Qed.

(** ** Starting and stopping *)

Lemma modify_twice (w : World) (p : nat) (f : ServoEasing -> ServoEasing) :
  (forall s, f (f s) = f s) -> modify p f (modify p f w) = modify p f w.
Proof.
  intros Hf. unfold modify. simpl. unfold set_objects. simpl. f_equal.
  rewrite list_alter_alter_eq. apply list_alter_ext; [|done]. intros x _. apply Hf.
Qed.

Lemma isOneServoMoving_statics (w : World) (b : bool) :
  isOneServoMoving (set_sInterruptsAreActive b w) = isOneServoMoving w.
Proof. reflexivity. Qed.

(** X10: calling [stop()] twice is the same as calling it once, and the
    servo does not move afterwards. *)
Theorem stop_is_idempotent (w : World) (this : nat) :
  stop this (stop this w) = stop this w /\ moves (stop this w) this = false.
Proof.
  assert (Hm : moves (modify this (set_mServoMoves false) w) this = false).
  { unfold moves. rewrite modify_lookup_eq. by destruct (objects w !! this). }
  unfold stop. set (w1 := modify this (set_mServoMoves false) w) in *.
  destruct (isOneServoMoving w1) eqn:Hone; simpl.
  - unfold w1. rewrite modify_twice by done. fold w1. by rewrite Hone.
  - split; [|exact Hm].
    assert (E : modify this (set_mServoMoves false) (disableServoEasingInterrupt w1)
                = disableServoEasingInterrupt w1).
    { change (disableServoEasingInterrupt (modify this (set_mServoMoves false) w1)
              = disableServoEasingInterrupt w1).
      unfold w1. by rewrite modify_twice. }
    rewrite E.
    change (isOneServoMoving (disableServoEasingInterrupt w1)) with (isOneServoMoving w1).
    by rewrite Hone.
Qed.

(** X11: [isOneServoMoving()] returns true exactly when the object of some
    slot up to [sServoArrayMaxIndex] has its moving flag set; slots above
    that index and objects outside the registry are not looked at. *)
Theorem isOneServoMoving_iff (w : World) :
  isOneServoMoving w = true <-> exists p, registered w p /\ moves w p = true.
Proof.
  split.
  - intros Hone. destruct (isOneServoMoving w) eqn:Hw; [|done]. clear Hone.
    unfold isOneServoMoving in Hw. apply existsb_exists in Hw as (i & Hi & Hm).
    apply list_elem_of_In, elem_of_slots in Hi.
    destruct (servoAt w i) as [p|] eqn:Hp; [|done]. exists p. split; [by exists i|done].
  - intros (p & Hreg & Hm). destruct (isOneServoMoving w) eqn:Hw; [done|].
    rewrite isOneServoMoving_false in Hw. rewrite (Hw p Hreg) in Hm. done.
Qed.

Lemma updateAllServos_idle (hdr : Header) (H : nat -> nat -> World -> World)
    (eased : ServoEasing -> Z -> Z) (w : World) (l : list nat) (b : bool) :
  (forall i p, i ∈ l -> servoAt w i = Some p -> moves w p = false) ->
  foldl (fun (acc : World * bool) tServoIndex =>
           let (w, tAllServosStopped) := acc in
           match servoAt w tServoIndex with
           | Some p => let (w', r) := update hdr H eased p w in (w', r && tAllServosStopped)
           | None => acc
           end) (w, b) l = (w, b).
Proof.
  induction l as [|i l IH]; intros Hidle; [done|].
  cbn [foldl]. destruct (servoAt w i) as [p|] eqn:Hp.
  - rewrite update_idle by (apply (Hidle i p); [apply elem_of_cons; by left|done]).
    simpl. apply IH. intros j q Hj. apply Hidle, elem_of_cons. by right.
  - apply IH. intros j q Hj. apply Hidle, elem_of_cons. by right.
Qed.

(** X12: when no registered servo moves, [updateAllServos()] changes nothing
    and returns true, and the timer handler [handleServoTimerInterrupt()]
    then does nothing but clear [sInterruptsAreActive]. *)
Theorem timer_handler_disables_itself_when_idle (hdr : Header)
    (H : nat -> nat -> World -> World) (eased : ServoEasing -> Z -> Z) (w : World) :
  (forall p, registered w p -> moves w p = false) ->
  updateAllServos hdr H eased w = (w, true) /\
  handleServoTimerInterrupt hdr H eased w = set_sInterruptsAreActive false w.
Proof.
  intros Hidle.
  assert (Hupd : updateAllServos hdr H eased w = (w, true)).
  { unfold updateAllServos. apply updateAllServos_idle.
    intros i p Hi Hp. apply Hidle. exists i. by rewrite <- elem_of_slots. }
  split; [exact Hupd|]. unfold handleServoTimerInterrupt. by rewrite Hupd.
Qed.

Lemma timer_handler_disables_itself_when_idle_witness :
  updateAllServos Sample.header Sample.quiet Sample.noEasing Sample.restingWorld
  = (Sample.restingWorld, true) /\
  handleServoTimerInterrupt Sample.header Sample.quiet Sample.noEasing Sample.restingWorld
  = set_sInterruptsAreActive false Sample.restingWorld.
Proof.
  apply (timer_handler_disables_itself_when_idle Sample.header Sample.quiet Sample.noEasing
           Sample.restingWorld).
  intros p (i & Hi & Hp). simpl in Hi.
  destruct i as [|i]; [|lia]. injection Hp as <-. reflexivity.
Defined.

(** X13: [startEaseToD] on an attached servo with a call style other than
    bouncing and an easing type other than the dummy move leaves the move
    consistent: start position is the old current position, end position is
    the converted target, and start plus delta is the end position; the
    staged position of the servo's slot is the raw target; the function returns
    true exactly when the servo was not moving before, and the servo moves
    afterwards. *)
Theorem startEaseToD_sets_consistent_move (hdr : Header) (w : World) (this : nat)
    (s : ServoEasing) (aTarget aMillis : Z) (aStart : bool) :
  objects w !! this = Some s -> mServoIndex s <> INVALID_SERVO hdr ->
  (mServoIndex s < length (ServoEasingNextPositionArray w))%nat ->
  is_bouncing hdr s = false -> mEasingType s <> EASE_DUMMY_MOVE hdr ->
  let r := startEaseToD hdr this aTarget aMillis aStart w in
  exists s1,
    objects (fst r) !! this = Some s1 /\
    mStartMicrosecondsOrUnits s1 = mCurrentMicrosecondsOrUnits s /\
    mCurrentMicrosecondsOrUnits s1 = mCurrentMicrosecondsOrUnits s /\
    mEndMicrosecondsOrUnits s1 = DegreeToMicrosecondsOrUnits hdr s aTarget /\
    mStartMicrosecondsOrUnits s1 + mDeltaMicrosecondsOrUnits s1 = mEndMicrosecondsOrUnits s1 /\
    mMillisForCompleteMove s1 = aMillis /\ mMillisAtStartMove s1 = millis w /\
    mServoMoves s1 = true /\
    ServoEasingNextPositionArray (fst r) !! mServoIndex s = Some aTarget /\
    snd r = negb (mServoMoves s) /\
    sInterruptsAreActive (fst r) = aStart || sInterruptsAreActive w /\
    pulses (fst r) = pulses w.
Proof.
  intros Hs Hidx Hlen Hb Hd r. subst r.
  destruct (startEaseToD_attached hdr w this s aTarget aMillis aStart Hs Hidx)
    as (s1 & Hs1 & Heq & Hret).
  exists s1. split; [exact Hs1|]. subst s1. rewrite Hb.
  destruct (Z.eqb_spec (mEasingType s) (EASE_DUMMY_MOVE hdr)) as [|_]; [done|].
  simpl. repeat split; try lia; try exact Hret;
    unfold startEaseToD; rewrite Hs;
    (destruct (Nat.eqb_spec (mServoIndex s) (INVALID_SERVO hdr)) as [|_]; [done|]);
    (destruct (Z.eqb_spec (mEasingType s) (EASE_DUMMY_MOVE hdr)) as [|_]; [done|]);
    simpl; destruct aStart, (sInterruptsAreActive w) eqn:Hi; simpl; rewrite ?Hi; try done;
    by apply list_lookup_insert_eq.
Qed.

Lemma startEaseToD_sets_consistent_move_witness :
  let s := Sample.servo 0 9 544 2400 1500 in
  let r := startEaseToD Sample.header 0 90 1000 true Sample.restingWorld in
  exists s1,
    objects (fst r) !! 0%nat = Some s1 /\
    mStartMicrosecondsOrUnits s1 = mCurrentMicrosecondsOrUnits s /\
    mCurrentMicrosecondsOrUnits s1 = mCurrentMicrosecondsOrUnits s /\
    mEndMicrosecondsOrUnits s1 = DegreeToMicrosecondsOrUnits Sample.header s 90 /\
    mStartMicrosecondsOrUnits s1 + mDeltaMicrosecondsOrUnits s1 = mEndMicrosecondsOrUnits s1 /\
    mMillisForCompleteMove s1 = 1000 /\ mMillisAtStartMove s1 = millis Sample.restingWorld /\
    mServoMoves s1 = true /\
    ServoEasingNextPositionArray (fst r) !! mServoIndex s = Some 90 /\
    snd r = negb (mServoMoves s) /\
    sInterruptsAreActive (fst r) = true || sInterruptsAreActive Sample.restingWorld /\
    pulses (fst r) = pulses Sample.restingWorld.
Proof.
  apply (startEaseToD_sets_consistent_move Sample.header Sample.restingWorld 0
           (Sample.servo 0 9 544 2400 1500) 90 1000 true);
    try reflexivity; simpl; lia.
Defined.

(** X14: [noMovement(t)] on an attached servo whose easing type is not the
    dummy move and whose current position is at or above the threshold for
    microsecond values starts a move of [t] milliseconds that goes nowhere:
    end and start position are the current position and the delta is 0; it
    enables the timer interrupt. *)
Theorem noMovement_keeps_position (hdr : Header) (w : World) (this : nat) (s : ServoEasing)
    (aMillis : Z) :
  objects w !! this = Some s -> mServoIndex s <> INVALID_SERVO hdr ->
  mEasingType s <> EASE_DUMMY_MOVE hdr ->
  THRESHOLD_VALUE_FOR_INTERPRETING_VALUE_AS_MICROSECONDS hdr <= mCurrentMicrosecondsOrUnits s ->
  let r := noMovement hdr this aMillis w in
  exists s1,
    objects (fst r) !! this = Some s1 /\
    mEndMicrosecondsOrUnits s1 = mCurrentMicrosecondsOrUnits s /\
    mStartMicrosecondsOrUnits s1 = mCurrentMicrosecondsOrUnits s /\
    mDeltaMicrosecondsOrUnits s1 = 0 /\
    mMillisForCompleteMove s1 = aMillis /\
    mServoMoves s1 = true /\
    sInterruptsAreActive (fst r) = true.
Proof.
  intros Hs Hidx Hd Hth r. subst r. unfold noMovement, MicrosecondsOrUnitsToMicroseconds.
  rewrite Hs.
  destruct (startEaseToD_attached hdr w this s (mCurrentMicrosecondsOrUnits s) aMillis true
              Hs Hidx) as (s1 & Hs1 & Heq & _).
  exists s1. split; [exact Hs1|]. subst s1.
  destruct (Z.eqb_spec (mEasingType s) (EASE_DUMMY_MOVE hdr)) as [|_]; [done|].
  assert (Hconv : DegreeToMicrosecondsOrUnits hdr s (mCurrentMicrosecondsOrUnits s)
                  = mCurrentMicrosecondsOrUnits s).
  { unfold DegreeToMicrosecondsOrUnits.
    destruct (Z.ltb_spec (mCurrentMicrosecondsOrUnits s)
                (THRESHOLD_VALUE_FOR_INTERPRETING_VALUE_AS_MICROSECONDS hdr)); [lia|done]. }
  rewrite Hconv. simpl. repeat split; try lia.
  - by destruct (is_bouncing hdr s).
  - unfold startEaseToD. rewrite Hs.
    destruct (Nat.eqb_spec (mServoIndex s) (INVALID_SERVO hdr)) as [|_]; [done|].
    destruct (Z.eqb_spec (mEasingType s) (EASE_DUMMY_MOVE hdr)) as [|_]; [done|].
    simpl. destruct (sInterruptsAreActive w) eqn:Hi; simpl; by rewrite ?Hi.
Qed.

Lemma noMovement_keeps_position_witness :
  let s := Sample.servo 0 9 544 2400 1500 in
  let r := noMovement Sample.header 0 300 Sample.restingWorld in
  exists s1,
    objects (fst r) !! 0%nat = Some s1 /\
    mEndMicrosecondsOrUnits s1 = mCurrentMicrosecondsOrUnits s /\
    mStartMicrosecondsOrUnits s1 = mCurrentMicrosecondsOrUnits s /\
    mDeltaMicrosecondsOrUnits s1 = 0 /\
    mMillisForCompleteMove s1 = 300 /\
    mServoMoves s1 = true /\
    sInterruptsAreActive (fst r) = true.
Proof.
  apply (noMovement_keeps_position Sample.header Sample.restingWorld 0
           (Sample.servo 0 9 544 2400 1500) 300); try reflexivity; simpl; lia.
Defined.

(** ** Attaching and detaching *)




Lemma shrinkMaxIndex_le (a : list (option nat)) (n : nat) : (shrinkMaxIndex a n <= n)%nat.
Proof.
  induction n as [|n IH]; [done|]. simpl.
  destruct (mjoin (a !! S n)); lia.
Qed.

Lemma shrinkMaxIndex_spec (a : list (option nat)) (n : nat) :
  (shrinkMaxIndex a n = O \/ mjoin (a !! shrinkMaxIndex a n) <> None) /\
  forall j, (shrinkMaxIndex a n < j <= n)%nat -> mjoin (a !! j) = None.
Proof.
  induction n as [|n (IH1 & IH2)]; [split; [by left|intros j Hj; simpl in Hj; lia]|].
  simpl. destruct (mjoin (a !! S n)) as [p|] eqn:Hn.
  - split; [right; by rewrite Hn|]. intros j Hj. lia.
  - split; [exact IH1|]. intros j Hj.
    destruct (decide (j = S n)) as [->|Hne]; [done|]. apply IH2. lia.
Qed.







Lemma servoAt_insert_eq (a : list (option nat)) (i : nat) (x : option nat) :
  mjoin (<[i := x]> a !! i) = if decide (i < length a)%nat then x else None.
Proof.
  case_decide as Hlt.
  - by rewrite list_lookup_insert_eq.
  - rewrite list_insert_ge by lia. by rewrite lookup_ge_None_2 by lia.
Qed.


Lemma restingWorld_registry_ok : registry_ok Sample.restingWorld.
Proof.
  intros i p s Hi Hp Hs. simpl in Hi.
  destruct i as [|i]; [|lia]. injection Hp as <-. by injection Hs as <-.
Qed.

Lemma restingWorld_registry_tight : registry_tight Sample.restingWorld.
Proof.
  split; [|split; [by left | simpl; lia]].
  intros i Hi. simpl in Hi. by destruct i as [|[|[|i]]]; [lia|..].
Qed.


(** X18: [detach] keeps the registry well-formed, and afterwards the object
    is in no slot up to [sServoArrayMaxIndex]. *)
Theorem detach_keeps_registry_wellformed (hdr : Header) (w : World) (this : nat)
    (s : ServoEasing) :
  objects w !! this = Some s ->
  (length (ServoEasingArray w) <= INVALID_SERVO hdr)%nat ->
  registry_ok w -> registry_tight w ->
  let w' := detach hdr this w in
  registry_ok w' /\ registry_tight w' /\ ~ registered w' this /\
  (sServoArrayMaxIndex w' <= sServoArrayMaxIndex w)%nat.
Proof.
  intros Hs Hlen Hok (Habove & Htop & Hmax) w'. subst w'.
  assert (Hlt : (this < length (objects w))%nat) by (by eapply lookup_lt_Some).
  unfold detach. rewrite Hs.
  destruct (Nat.eqb_spec (mServoIndex s) (INVALID_SERVO hdr)) as [Hinv|Hinv].
  - (* already detached: the registry stays *)
    assert (Hnot : forall k, (k <= sServoArrayMaxIndex w)%nat -> servoAt w k <> Some this).
    { intros k Hk Hq. pose proof (Hok k this s Hk Hq Hs). lia. }
    split; [|split; [|split]]; simpl; try done.
    + intros k q t Hk Hq Ht. simpl in *.
      assert (q <> this) by (intros ->; by apply (Hnot k)).
      rewrite list_lookup_insert_ne in Ht by done. by apply (Hok k q t).
    + intros (k & Hk & Hq). by apply (Hnot k).
  - set (a := <[mServoIndex s := None]> (ServoEasingArray w)).
    set (top := shrinkMaxIndex a (sServoArrayMaxIndex w)).
    pose proof (shrinkMaxIndex_le a (sServoArrayMaxIndex w)) as Hle.
    destruct (shrinkMaxIndex_spec a (sServoArrayMaxIndex w)) as (Hsp1 & Hsp2).
    fold top in Hle, Hsp1, Hsp2.
    assert (Hk : forall k q, mjoin (a !! k) = Some q ->
              k <> mServoIndex s /\ servoAt w k = Some q).
    { intros k q Hq. destruct (decide (k = mServoIndex s)) as [->|Hne].
      - unfold a in Hq. rewrite servoAt_insert_eq in Hq. by case_decide.
      - unfold a in Hq. by rewrite list_lookup_insert_ne in Hq. }
    assert (Hnot : forall k q, (k <= sServoArrayMaxIndex w)%nat ->
              mjoin (a !! k) = Some q -> q <> this).
    { intros k q Hkm Hq ->. destruct (Hk k this Hq) as (Hne & Hq').
      by pose proof (Hok k this s Hkm Hq' Hs). }
    split; [|split; [|split]]; simpl.
    + intros k q t Hkt Hq Ht. simpl in Hkt. fold a top in Hkt.
      change (mjoin (a !! k) = Some q) in Hq. simpl in Ht.
      assert (q <> this) by (apply (Hnot k); [lia|done]).
      rewrite list_lookup_insert_ne in Ht by done.
      destruct (Hk k q Hq) as (_ & Hq'). apply (Hok k q t); [lia|done..].
    + split; [|split]; simpl; fold a top.
      * intros k Hkt. change (mjoin (a !! k) = None).
        destruct (Nat.le_gt_cases k (sServoArrayMaxIndex w)) as [|Hgt]; [apply Hsp2; lia|].
        destruct (mjoin (a !! k)) as [q|] eqn:Hq; [|done].
        destruct (Hk k q Hq) as (_ & Hq'). by rewrite Habove in Hq'.
      * destruct Hsp1 as [->|Hocc]; [by left|by right].
      * unfold a. rewrite length_insert. lia.
    + intros (k & Hkt & Hq). simpl in Hkt. fold a top in Hkt.
      change (mjoin (a !! k) = Some this) in Hq. by apply (Hnot k this); [lia|..].
    + done.
Qed.

Lemma detach_keeps_registry_wellformed_witness :
  let w' := detach Sample.header 0 Sample.restingWorld in
  registry_ok w' /\ registry_tight w' /\ ~ registered w' 0 /\
  (sServoArrayMaxIndex w' <= sServoArrayMaxIndex Sample.restingWorld)%nat.
Proof.
  apply (detach_keeps_registry_wellformed Sample.header Sample.restingWorld 0
           (Sample.servo 0 9 544 2400 1500)).
  - reflexivity.
  - simpl. lia.
  - exact restingWorld_registry_ok.
  - exact restingWorld_registry_tight.
Defined.



(** X20: [detach] of an attached servo empties its slot, leaves the other
    slots alone, clears the moving flag and marks the object as detached
    without touching its other fields; afterwards [write] and a tick do
    nothing to it, and the tick reports it as stopped. *)
Theorem detach_frees_slot_and_disables_servo (hdr : Header)
    (H : nat -> nat -> World -> World) (eased : ServoEasing -> Z -> Z) (w : World)
    (this : nat) (s : ServoEasing) (aValue : Z) :
  objects w !! this = Some s -> mServoIndex s <> INVALID_SERVO hdr ->
  let w' := detach hdr this w in
  servoAt w' (mServoIndex s) = None /\
  (forall j, j <> mServoIndex s -> servoAt w' j = servoAt w j) /\
  objects w' !! this = Some (set_detached (INVALID_SERVO hdr) s) /\
  (forall q, q <> this -> objects w' !! q = objects w !! q) /\
  pulses w' = pulses w /\
  write hdr this aValue w' = w' /\
  update hdr H eased this w' = (w', true).
Proof.
  intros Hs Hidx w'. subst w'.
  assert (Hlt : (this < length (objects w))%nat) by (by eapply lookup_lt_Some).
  unfold detach. rewrite Hs.
  destruct (Nat.eqb_spec (mServoIndex s) (INVALID_SERVO hdr)) as [|_]; [done|].
  split; [|split; [|split; [|split; [|split; [|split]]]]].
  - unfold servoAt. simpl. rewrite servoAt_insert_eq. by case_decide.
  - intros j Hj. unfold servoAt. simpl. by rewrite list_lookup_insert_ne.
  - simpl. by apply list_lookup_insert_eq.
  - intros q Hq. simpl. by apply list_lookup_insert_ne.
  - done.
  - unfold write. simpl. rewrite list_lookup_insert_eq by done. simpl.
    by rewrite Nat.eqb_refl.
  - apply update_idle. unfold moves. simpl. by rewrite list_lookup_insert_eq.
Qed.

Lemma detach_frees_slot_and_disables_servo_witness :
  let s := Sample.moving 0 9 544 1472 0 1500 (Some 1%nat) in
  let w' := detach Sample.header 0 Sample.finishingWorld in
  servoAt w' (mServoIndex s) = None /\
  (forall j, j <> mServoIndex s -> servoAt w' j = servoAt Sample.finishingWorld j) /\
  objects w' !! 0%nat = Some (set_detached (INVALID_SERVO Sample.header) s) /\
  (forall q, q <> 0%nat -> objects w' !! q = objects Sample.finishingWorld !! q) /\
  pulses w' = pulses Sample.finishingWorld /\
  write Sample.header 0 90 w' = w' /\
  update Sample.header Sample.quiet Sample.noEasing 0 w' = (w', true).
Proof.
  apply (detach_frees_slot_and_disables_servo Sample.header Sample.quiet Sample.noEasing
           Sample.finishingWorld 0 (Sample.moving 0 9 544 1472 0 1500 (Some 1%nat)) 90).
  - reflexivity.
  - simpl. lia.
Defined.

(** ** More on the loops over the registry *)

(** The objects after the synchronisation. *)
Lemma synchronize_objects (aStart : bool) (w : World) (q : nat) :
  objects (synchronizeAllServosAndStartInterrupt aStart w) !! q
  = if decide (q ∈ omap (movingAt w) (slots w))
    then set_timing (snd (findMaxDurationAndStart w)) (fst (findMaxDurationAndStart w))
           <$> objects w !! q
    else objects w !! q.
Proof.
  unfold synchronizeAllServosAndStartInterrupt.
  destruct (findMaxDurationAndStart w) as [tMax tStart]. cbn [fst snd].
  etransitivity;
    [|apply (modify_selected_lookup (set_timing tStart tMax) movingAt
               (fun _ => eq_refl)
               (fun w0 p i => movingAt_modify w0 p i (set_timing tStart tMax)
                                (fun _ => eq_refl)) (slots w) w q)].
  by destruct aStart.
Qed.

Lemma synchronize_registry (aStart : bool) (w : World) :
  ServoEasingArray (synchronizeAllServosAndStartInterrupt aStart w) = ServoEasingArray w /\
  sServoArrayMaxIndex (synchronizeAllServosAndStartInterrupt aStart w)
  = sServoArrayMaxIndex w.
Proof.
  unfold synchronizeAllServosAndStartInterrupt.
  destruct (findMaxDurationAndStart w) as [tMax tStart].
  pose proof (modify_selected_statics (set_timing tStart tMax) movingAt (slots w) w) as Hst.
  pose proof (f_equal ServoEasingArray Hst) as H1.
  pose proof (f_equal sServoArrayMaxIndex Hst) as H2.
  destruct aStart; split; first [exact H1 | exact H2].
Qed.

Lemma movingServo_omap (w : World) (p : nat) :
  p ∈ omap (movingAt w) (slots w) <-> registered w p /\ moves w p = true.
Proof.
  rewrite list_elem_of_omap. unfold registered. split.
  - intros (i & Hi & (Hp & Hm)%movingAt_Some). apply elem_of_slots in Hi. eauto.
  - intros ((i & Hi & Hp) & Hm). exists i. rewrite elem_of_slots, movingAt_Some. eauto.
Qed.

(** X21: after the synchronisation all moving registered servos carry the same
    start time and the same duration, so for every reading of the clock
    the end-of-move test of [update] gives the same answer for all of them:
    they complete in the same tick. *)
Theorem synchronized_servos_finish_in_the_same_tick (aStart : bool) (w : World)
    (p q : nat) (s t : ServoEasing) (clock : Z) :
  let w' := synchronizeAllServosAndStartInterrupt aStart w in
  movingServo w' p s -> movingServo w' q t ->
  mMillisAtStartMove s = mMillisAtStartMove t /\
  mMillisForCompleteMove s = mMillisForCompleteMove t /\
  (elapsed s clock >=? mMillisForCompleteMove s)
  = (elapsed t clock >=? mMillisForCompleteMove t).
Proof.
  intros w'.
  assert (Hmv : forall r x, movingServo w' r x ->
            mMillisAtStartMove x = snd (findMaxDurationAndStart w) /\
            mMillisForCompleteMove x = fst (findMaxDurationAndStart w)).
  { intros r x ((i & Hi & Hr) & Hx & Hm).
    destruct (synchronize_registry aStart w) as (Harr & Hmax).
    fold w' in Harr, Hmax. rewrite Hmax in Hi.
    assert (Hr' : servoAt w i = Some r) by (unfold servoAt in *; by rewrite <- Harr).
    pose proof (synchronize_objects aStart w r) as Hobj. fold w' in Hobj.
    rewrite Hx in Hobj. case_decide as Hin.
    - destruct (objects w !! r) as [x0|]; [|done]. injection Hobj as ->. done.
    - exfalso. apply Hin, movingServo_omap. split; [by exists i|].
      unfold moves. rewrite <- Hobj. done. }
  intros (Hs1 & Hs2)%Hmv (Ht1 & Ht2)%Hmv.
  unfold elapsed. rewrite Hs1, Hs2, Ht1, Ht2. done.
Qed.

Lemma synchronized_servos_finish_in_the_same_tick_witness :
  let w' := synchronizeAllServosAndStartInterrupt false Sample.mixedWorld in
  let s := set_timing 47 1500 (Sample.moving 0 9 544 1472 40 1500 None) in
  let t := set_timing 47 1500 (Sample.moving 2 11 2400 2000 47 700 None) in
  mMillisAtStartMove s = mMillisAtStartMove t /\
  mMillisForCompleteMove s = mMillisForCompleteMove t /\
  (elapsed s 800 >=? mMillisForCompleteMove s) = (elapsed t 800 >=? mMillisForCompleteMove t).
Proof.
  apply (synchronized_servos_finish_in_the_same_tick false Sample.mixedWorld 0 2).
  - split; [exists 0%nat; split; [simpl; lia | reflexivity]|]. split; reflexivity.
  - split; [exists 2%nat; split; [simpl; lia | reflexivity]|]. split; reflexivity.
Defined.

(** X22: [setSpeedForAllServos] and [setEasingTypeForAllServos] set the
    speed, respectively the easing type, of every registered servo and
    change nothing else: no other field of these objects, no object outside
    the registry, no static member. *)
Theorem broadcast_setters_touch_one_field (w : World) (aSpeed aEasingType : Z) :
  (forall p s, registered w p -> objects w !! p = Some s ->
     objects (setSpeedForAllServos aSpeed w) !! p = Some (set_mSpeed aSpeed s) /\
     objects (setEasingTypeForAllServos aEasingType w) !! p
     = Some (set_mEasingType aEasingType s)) /\
  (forall p, ~ registered w p ->
     objects (setSpeedForAllServos aSpeed w) !! p = objects w !! p /\
     objects (setEasingTypeForAllServos aEasingType w) !! p = objects w !! p) /\
  same_statics w (setSpeedForAllServos aSpeed w) /\
  same_statics w (setEasingTypeForAllServos aEasingType w).
Proof.
  unfold setSpeedForAllServos, setEasingTypeForAllServos.
  assert (Hl1 := modify_selected_lookup (set_mSpeed aSpeed) servoAt
                   (fun _ => eq_refl) (fun _ _ _ => eq_refl) (slots w) w).
  assert (Hl2 := modify_selected_lookup (set_mEasingType aEasingType) servoAt
                   (fun _ => eq_refl) (fun _ _ _ => eq_refl) (slots w) w).
  split; [|split; [|split]].
  - intros p s Hreg%registered_omap Hs. rewrite Hl1, Hl2, !decide_True by done.
    by rewrite Hs.
  - intros p Hreg. rewrite Hl1, Hl2, !decide_False; [done|by rewrite registered_omap..].
  - apply modify_selected_statics.
  - apply modify_selected_statics.
Qed.

Lemma write_objects (hdr : Header) (w : World) (p : nat) (v : Z) :
  objects (write hdr p v w)
  = alter (fun s => if Nat.eqb (mServoIndex s) (INVALID_SERVO hdr) then s
                    else set_mCurrentMicrosecondsOrUnits
                           (DegreeToMicrosecondsOrUnits hdr s v) s) p (objects w) /\
  ServoEasingArray (write hdr p v w) = ServoEasingArray w /\
  sServoArrayMaxIndex (write hdr p v w) = sServoArrayMaxIndex w.
Proof.
  destruct (objects w !! p) as [s|] eqn:Hs.
  - destruct (Nat.eqb (mServoIndex s) (INVALID_SERVO hdr)) eqn:Hidx.
    + unfold write. rewrite Hs, Hidx.
      split; [|done]. symmetry. apply list_eq. intros k.
      destruct (decide (k = p)) as [->|Hne].
      * rewrite list_lookup_alter_eq, Hs. simpl. by rewrite Hidx.
      * by rewrite list_lookup_alter_ne.
    + apply Nat.eqb_neq in Hidx as Hidx'.
      rewrite (write_attached hdr w p s v Hs Hidx'). simpl.
      split; [|done]. apply list_eq. intros k.
      destruct (decide (k = p)) as [->|Hne].
      * rewrite list_lookup_alter_eq, Hs.
        rewrite list_lookup_insert_eq by (by eapply lookup_lt_Some).
        simpl. by rewrite Hidx.
      * by rewrite list_lookup_alter_ne, list_lookup_insert_ne.
  - unfold write. rewrite Hs.
    split; [|done]. symmetry. apply list_eq. intros k.
    destruct (decide (k = p)) as [->|Hne].
    + by rewrite list_lookup_alter_eq, Hs.
    + by rewrite list_lookup_alter_ne.
Qed.

Lemma writeAllServos_objects (hdr : Header) (v : Z) (l : list nat) (w1 w2 : World) :
  objects w1 = objects w2 -> ServoEasingArray w1 = ServoEasingArray w2 ->
  objects (foldl (fun w tServoIndex =>
                    match servoAt w tServoIndex with
                    | Some p => write hdr p v w
                    | None => w
                    end) w1 l)
  = objects (foldl (fun w i =>
                      match servoAt w i with
                      | Some p =>
                          modify p
                            (fun s => if Nat.eqb (mServoIndex s) (INVALID_SERVO hdr) then s
                                      else set_mCurrentMicrosecondsOrUnits
                                             (DegreeToMicrosecondsOrUnits hdr s v) s) w
                      | None => w
                      end) w2 l).
Proof.
  revert w1 w2. induction l as [|i l IH]; intros w1 w2 Hobj Harr; [done|].
  cbn [foldl]. assert (Hsel : servoAt w1 i = servoAt w2 i) by (unfold servoAt; by rewrite Harr).
  rewrite Hsel. destruct (servoAt w2 i) as [p|]; [|by apply IH].
  destruct (write_objects hdr w1 p v) as (Ho & Ha & _).
  apply IH; [|by rewrite Ha]. rewrite Ho, Hobj. done.
Qed.

(** X23: [writeAllServos(v)] gives every registered attached servo the
    converted [v] as current position, leaving its other fields alone;
    registered objects that are detached and objects outside the registry
    are not changed. *)
Theorem writeAllServos_sets_every_registered_servo (hdr : Header) (w : World) (v : Z) :
  let w' := writeAllServos hdr v w in
  (forall p s, registered w p -> objects w !! p = Some s ->
     mServoIndex s <> INVALID_SERVO hdr ->
     objects w' !! p
     = Some (set_mCurrentMicrosecondsOrUnits (DegreeToMicrosecondsOrUnits hdr s v) s)) /\
  (forall p s, objects w !! p = Some s -> mServoIndex s = INVALID_SERVO hdr ->
     objects w' !! p = Some s) /\
  (forall p, ~ registered w p -> objects w' !! p = objects w !! p).
Proof.
  intros w'. subst w'. unfold writeAllServos.
  set (g := fun s => if Nat.eqb (mServoIndex s) (INVALID_SERVO hdr) then s
                     else set_mCurrentMicrosecondsOrUnits
                            (DegreeToMicrosecondsOrUnits hdr s v) s).
  assert (Hidem : forall s, g (g s) = g s).
  { intros s. unfold g. destruct (Nat.eqb (mServoIndex s) (INVALID_SERVO hdr)) eqn:Hi.
    - by rewrite Hi.
    - simpl. by rewrite Hi. }
  assert (Hl : forall q,
            objects (foldl (fun w tServoIndex =>
                              match servoAt w tServoIndex with
                              | Some p => write hdr p v w
                              | None => w
                              end) w (slots w)) !! q
            = if decide (q ∈ omap (servoAt w) (slots w)) then g <$> objects w !! q
              else objects w !! q).
  { intros q. rewrite (writeAllServos_objects hdr v (slots w) w w eq_refl eq_refl).
    apply (modify_selected_lookup g servoAt Hidem (fun _ _ _ => eq_refl)). }
  split; [|split].
  - intros p s Hreg%registered_omap Hs Hidx. rewrite Hl, decide_True, Hs by done.
    simpl. unfold g. apply Nat.eqb_neq in Hidx. by rewrite Hidx.
  - intros p s Hs Hidx. rewrite Hl, Hs. unfold g. simpl.
    rewrite Hidx, Nat.eqb_refl. by case_decide.
  - intros p Hreg. rewrite Hl, decide_False; [done|]. by rewrite registered_omap.
Qed.

(** X24: [setDegreeForAllServos(n, v0, ..., v(n-1))] stages the [n] values
    in the first [n] entries of [ServoEasingNextPositionArray] and changes
    neither the entries from [n] on nor anything else. *)
Theorem setDegreeForAllServos_stages_first_entries (w : World) (n : nat) (vs : list Z) :
  (n <= length vs)%nat -> (n <= length (ServoEasingNextPositionArray w))%nat ->
  let w' := setDegreeForAllServos n vs w in
  (forall i, (i < n)%nat -> ServoEasingNextPositionArray w' !! i = vs !! i) /\
  (forall i, (n <= i)%nat ->
     ServoEasingNextPositionArray w' !! i = ServoEasingNextPositionArray w !! i) /\
  length (ServoEasingNextPositionArray w') = length (ServoEasingNextPositionArray w) /\
  objects w' = objects w /\ ServoEasingArray w' = ServoEasingArray w /\
  pulses w' = pulses w.
Proof.
  intros Hvs Harr w'. subst w'. unfold setDegreeForAllServos. simpl.
  set (a := ServoEasingNextPositionArray w) in *.
  assert (Hgen : forall m, (m <= n)%nat ->
            let a' := foldl (fun a tServoIndex =>
                               match vs !! tServoIndex with
                               | Some v => <[tServoIndex := v]> a
                               | None => a
                               end) a (seq 0 m) in
            length a' = length a /\
            (forall i, (i < m)%nat -> a' !! i = vs !! i) /\
            (forall i, (m <= i)%nat -> a' !! i = a !! i)).
  { induction m as [|m IH]; intros Hm; [simpl; split; [done|split; [intros; lia|done]]|].
    rewrite seq_S, foldl_app. simpl.
    destruct (IH ltac:(lia)) as (Hlen & Hlow & Hhigh).
    destruct (lookup_lt_is_Some_2 vs m ltac:(lia)) as (x & Hx). rewrite Hx.
    split; [by rewrite length_insert|]. split.
    - intros i Hi. destruct (decide (i = m)) as [->|Hne].
      + rewrite list_lookup_insert_eq by lia. done.
      + rewrite list_lookup_insert_ne by done. apply Hlow. lia.
    - intros i Hi. rewrite list_lookup_insert_ne by lia. apply Hhigh. lia. }
  destruct (Hgen n ltac:(lia)) as (Hlen & Hlow & Hhigh).
  repeat split; done.
Qed.

Lemma setDegreeForAllServos_stages_first_entries_witness :
  let w' := setDegreeForAllServos 2 [90; 45] Sample.mixedWorld in
  (forall i, (i < 2)%nat -> ServoEasingNextPositionArray w' !! i = [90; 45] !! i) /\
  (forall i, (2 <= i)%nat ->
     ServoEasingNextPositionArray w' !! i
     = ServoEasingNextPositionArray Sample.mixedWorld !! i) /\
  length (ServoEasingNextPositionArray w')
  = length (ServoEasingNextPositionArray Sample.mixedWorld) /\
  objects w' = objects Sample.mixedWorld /\
  ServoEasingArray w' = ServoEasingArray Sample.mixedWorld /\
  pulses w' = pulses Sample.mixedWorld.
Proof.
  apply (setDegreeForAllServos_stages_first_entries Sample.mixedWorld 2 [90; 45]);
    simpl; lia.
Defined.

(** ** The conversions of the expander build *)



(** ** Blocking moves *)

Lemma to_uint32_small (x : Z) : 0 <= x < 2 ^ 32 -> to_uint32 x = x.
Proof. intros Hx. unfold to_uint32. by apply Z.mod_small. Qed.

Lemma to_uint32_add_l (a b : Z) : to_uint32 (to_uint32 a + b) = to_uint32 (a + b).
Proof. unfold to_uint32. apply Zplus_mod_idemp_l. Qed.

Lemma to_uint32_sub_l (a b : Z) : to_uint32 (to_uint32 a - b) = to_uint32 (a - b).
Proof. unfold to_uint32. apply Zminus_mod_idemp_l. Qed.

Lemma update_before_end_millis (hdr : Header) (H : nat -> nat -> World -> World)
    (eased : ServoEasing -> Z -> Z) (w : World) (this : nat) (s : ServoEasing) :
  objects w !! this = Some s -> mServoMoves s = true ->
  elapsed s (millis w) < mMillisForCompleteMove s ->
  millis (fst (update hdr H eased this w)) = millis w.
Proof.
  intros Hs Hm Hlt. unfold update. rewrite Hs, Hm. simpl.
  fold (elapsed s (millis w)).
  destruct (Z.geb_spec (elapsed s (millis w)) (mMillisForCompleteMove s)) as [Hge|_];
    [lia|].
  match goal with |- context [if ?c then w else _] => destruct c end; simpl; [done|].
  match goal with |- context [writeMicrosecondsOrUnits hdr this ?u w] =>
    by destruct (writeMicrosecondsOrUnits_frame hdr w this s u Hs) as (_ & _ & ->)
  end.
Qed.

(** The polling loop of a blocking move, from its [k]th period on. *)
Lemma delayAndUpdateUntilStopped_ends (hdr : Header) (H : nat -> nat -> World -> World)
    (eased : ServoEasing -> Z -> Z) (this : nat) (s1 : ServoEasing) (n : Z) :
  mServoMoves s1 = true -> mServoIndex s1 <> INVALID_SERVO hdr ->
  TargetPositionReachedHandler s1 = None ->
  1 <= n -> mMillisForCompleteMove s1 <= 20 * n -> 20 * n < 2 ^ 32 ->
  (forall j, 1 <= j < n -> 20 * j < mMillisForCompleteMove s1) ->
  forall (fuel : nat) (k : Z) (wk : World),
    0 <= k < n -> (Z.to_nat (n - k) <= fuel)%nat ->
    millis wk = to_uint32 (mMillisAtStartMove s1 + 20 * k) ->
    (exists x, objects wk !! this = Some (set_mCurrentMicrosecondsOrUnits x s1)) ->
    exists w',
      delayAndUpdateUntilStopped hdr H eased fuel this wk = Some w' /\
      objects w' !! this
      = Some (set_mServoMoves false
                (set_mCurrentMicrosecondsOrUnits (mEndMicrosecondsOrUnits s1) s1)) /\
      millis w' = to_uint32 (mMillisAtStartMove s1 + 20 * n) /\
      last (pulses w') = Some (mServoPin s1, pulseOf s1 (mEndMicrosecondsOrUnits s1)).
Proof.
  intros Hm Hidx Hh Hn Hhigh Hwrap Hlow.
  induction fuel as [|fuel IH]; intros k wk Hk Hfuel Hmillis (x & Hx); [lia|].
  cbn [delayAndUpdateUntilStopped].
  set (w1 := delay REFRESH_INTERVAL_MILLIS wk).
  assert (Hx1 : objects w1 !! this = Some (set_mCurrentMicrosecondsOrUnits x s1)) by exact Hx.
  assert (Hm1 : millis w1 = to_uint32 (mMillisAtStartMove s1 + 20 * (k + 1))).
  { unfold w1, delay, REFRESH_INTERVAL_MILLIS. simpl. rewrite Hmillis, to_uint32_add_l.
    f_equal. lia. }
  assert (He : elapsed (set_mCurrentMicrosecondsOrUnits x s1) (millis w1) = 20 * (k + 1)).
  { unfold elapsed.
    change (mMillisAtStartMove (set_mCurrentMicrosecondsOrUnits x s1))
      with (mMillisAtStartMove s1).
    rewrite Hm1, to_uint32_sub_l.
    replace (mMillisAtStartMove s1 + 20 * (k + 1) - mMillisAtStartMove s1)
      with (20 * (k + 1)) by lia.
    apply to_uint32_small. lia. }
  destruct (decide (k + 1 = n)) as [Hlast|Hmore].
  - rewrite (update_at_end hdr H eased w1 this _ Hx1 Hm) by (rewrite He; simpl; lia).
    simpl. rewrite Hh.
    rewrite (writeMicrosecondsOrUnits_attached hdr w1 this _ _ Hx1 Hidx).
    eexists. split; [reflexivity|]. split; [|split].
    + rewrite modify_lookup_eq. simpl.
      by rewrite list_lookup_insert_eq by (by eapply lookup_lt_Some).
    + simpl. rewrite Hmillis, to_uint32_add_l. unfold REFRESH_INTERVAL_MILLIS.
      f_equal. lia.
    + simpl. by rewrite last_snoc.
  - assert (Hlt : elapsed (set_mCurrentMicrosecondsOrUnits x s1) (millis w1)
                  < mMillisForCompleteMove (set_mCurrentMicrosecondsOrUnits x s1)).
    { rewrite He. simpl. apply Hlow. lia. }
    destruct (update_before_end hdr H eased w1 this _ Hx1 Hm Hlt) as ((y & Hy) & _ & Hret).
    pose proof (update_before_end_millis hdr H eased w1 this _ Hx1 Hm Hlt) as Hmil.
    destruct (update hdr H eased this w1) as [w2 r]. simpl in Hy, Hret, Hmil. subst r.
    apply (IH (k + 1) w2); [lia|lia|by rewrite Hmil|by exists y].
Qed.

(** X27: the blocking [easeToD] of an attached servo without a handler
    returns: with a duration [D] that leaves room for one more period in the
    32 bit clock, the loop of "delay one period, then tick" ends after
    [max 1 (ceil (D / 20))] periods, with the end position of the move as
    current position, its pulse as the last pulse sent, and the moving flag
    cleared. *)
Theorem easeToD_returns_at_the_target (hdr : Header) (H : nat -> nat -> World -> World)
    (eased : ServoEasing -> Z -> Z) (w : World) (this : nat) (s : ServoEasing)
    (aTarget aMillis : Z) (fuel : nat) :
  objects w !! this = Some s -> mServoIndex s <> INVALID_SERVO hdr ->
  mEasingType s <> EASE_DUMMY_MOVE hdr ->
  TargetPositionReachedHandler s = None ->
  0 <= aMillis -> aMillis + 20 <= 2 ^ 32 -> 0 <= millis w < 2 ^ 32 ->
  (Z.to_nat (aMillis / 20) + 1 <= fuel)%nat ->
  let target := if is_bouncing hdr s then mCurrentMicrosecondsOrUnits s
                else DegreeToMicrosecondsOrUnits hdr s aTarget in
  exists w' s',
    easeToD hdr H eased fuel this aTarget aMillis w = Some w' /\
    objects w' !! this = Some s' /\
    mCurrentMicrosecondsOrUnits s' = target /\
    mServoMoves s' = false /\
    last (pulses w') = Some (mServoPin s, pulseOf s target) /\
    millis w' = to_uint32 (millis w + 20 * Z.max 1 ((aMillis + 19) / 20)).
Proof.
  intros Hs Hidx Hd Hh HD Hroom Hclock Hfuel target.
  destruct (startEaseToD_attached hdr w this s aTarget aMillis false Hs Hidx)
    as (s1 & Hs1 & Heq & _).
  destruct (Z.eqb_spec (mEasingType s) (EASE_DUMMY_MOVE hdr)) as [|_]; [done|].
  fold target in Heq.
  set (n := Z.max 1 ((aMillis + 19) / 20)).
  pose proof (Z.div_mod (aMillis + 19) 20 ltac:(lia)) as Hdm.
  pose proof (Z.mod_pos_bound (aMillis + 19) 20 ltac:(lia)) as Hr.
  pose proof (Z.div_mod aMillis 20 ltac:(lia)) as Hdm'.
  pose proof (Z.mod_pos_bound aMillis 20 ltac:(lia)) as Hr'.
  assert (0 <= aMillis / 20) by (apply Z.div_pos; lia).
  set (w0 := fst (startEaseToD hdr this aTarget aMillis false w)) in *.
  assert (Hmil0 : millis w0 = to_uint32 (mMillisAtStartMove s1 + 20 * 0)).
  { subst s1. unfold w0, startEaseToD. rewrite Hs.
    destruct (Nat.eqb_spec (mServoIndex s) (INVALID_SERVO hdr)) as [|_]; [done|].
    destruct (Z.eqb_spec (mEasingType s) (EASE_DUMMY_MOVE hdr)) as [|_]; [done|].
    simpl. rewrite Z.add_0_r. symmetry. by apply to_uint32_small. }
  assert (Hex : exists x, objects w0 !! this = Some (set_mCurrentMicrosecondsOrUnits x s1)).
  { exists (mCurrentMicrosecondsOrUnits s1). by rewrite set_mCurrentMicrosecondsOrUnits_id. }
  assert (Hfacts : mServoMoves s1 = true /\ mServoIndex s1 = mServoIndex s /\
                   TargetPositionReachedHandler s1 = TargetPositionReachedHandler s /\
                   mMillisForCompleteMove s1 = aMillis /\ mMillisAtStartMove s1 = millis w /\
                   mEndMicrosecondsOrUnits s1 = target /\ mServoPin s1 = mServoPin s /\
                   pulseOf s1 target = pulseOf s target) by (by subst s1).
  destruct Hfacts as (F1 & F2 & F3 & F4 & F5 & F6 & F7 & F8).
  destruct (delayAndUpdateUntilStopped_ends hdr H eased this s1 n F1
              ltac:(congruence) ltac:(congruence) ltac:(lia) ltac:(lia) ltac:(lia)
              ltac:(intros; lia) fuel 0 w0 ltac:(lia) ltac:(lia) Hmil0 Hex)
    as (w' & Hrun & Hobj & Hmil & Hlast).
  exists w'. eexists. split; [exact Hrun|]. split; [exact Hobj|].
  rewrite Hlast, Hmil, F5, F6, F7, F8. by repeat split.
Qed.

Lemma easeToD_returns_at_the_target_witness :
  let s := Sample.servo 0 9 544 2400 1500 in
  let target := if is_bouncing Sample.header s then mCurrentMicrosecondsOrUnits s
                else DegreeToMicrosecondsOrUnits Sample.header s 90 in
  exists w' s',
    easeToD Sample.header Sample.quiet Sample.noEasing 6 0 90 100 Sample.restingWorld
    = Some w' /\
    objects w' !! 0%nat = Some s' /\
    mCurrentMicrosecondsOrUnits s' = target /\
    mServoMoves s' = false /\
    last (pulses w') = Some (mServoPin s, pulseOf s target) /\
    millis w' = to_uint32 (millis Sample.restingWorld + 20 * Z.max 1 ((100 + 19) / 20)).
Proof.
  apply (easeToD_returns_at_the_target Sample.header Sample.quiet Sample.noEasing
           Sample.restingWorld 0 (Sample.servo 0 9 544 2400 1500) 90 100 6);
    try reflexivity; simpl; lia.
Defined.

(** ** Batch moves *)

Lemma startEaseToD_effect (hdr : Header) (w : World) (q : nat) (sq : ServoEasing) (a d : Z) :
  objects w !! q = Some sq ->
  let w' := fst (startEaseToD hdr q a d false w) in
  ServoEasingArray w' = ServoEasingArray w /\
  sServoArrayMaxIndex w' = sServoArrayMaxIndex w /\
  millis w' = millis w /\
  (forall r, r <> q -> objects w' !! r = objects w !! r) /\
  (exists s', objects w' !! q = Some s' /\ mServoIndex s' = mServoIndex sq) /\
  (forall k, k <> mServoIndex sq ->
     ServoEasingNextPositionArray w' !! k = ServoEasingNextPositionArray w !! k).
Proof.
  intros Hq w'. subst w'.
  destruct (Nat.eq_dec (mServoIndex sq) (INVALID_SERVO hdr)) as [Hidx|Hidx].
  - assert (startEaseToD hdr q a d false w = (w, true)) as ->.
    { unfold startEaseToD. rewrite Hq, Hidx. by rewrite Nat.eqb_refl. }
    simpl. repeat split; eauto.
  - destruct (startEaseToD_attached hdr w q sq a d false Hq Hidx) as (s' & Hs' & Heq & _).
    unfold startEaseToD in *. rewrite Hq in *.
    destruct (Nat.eqb_spec (mServoIndex sq) (INVALID_SERVO hdr)) as [|_]; [done|].
    simpl in *.
    destruct (Z.eqb_spec (mEasingType sq) (EASE_DUMMY_MOVE hdr)) as [Hd|Hd]; simpl in *.
    + repeat split; try done.
      * intros r Hr. by apply list_lookup_insert_ne.
      * exists s'. split; [done|]. by subst s'.
    + repeat split; try done.
      * intros r Hr. by apply list_lookup_insert_ne.
      * exists s'. split; [done|]. by subst s'.
      * intros k Hk. by apply list_lookup_insert_ne.
Qed.

Lemma startEaseToD_registry_ok (hdr : Header) (w : World) (q : nat) (sq : ServoEasing)
    (a d : Z) :
  objects w !! q = Some sq -> registry_ok w ->
  registry_ok (fst (startEaseToD hdr q a d false w)).
Proof.
  intros Hq Hok.
  destruct (startEaseToD_effect hdr w q sq a d Hq)
    as (Harr & Hmax & _ & Hother & (s' & Hs' & Hi) & _).
  intros i p s Hle Hp Hs. rewrite Hmax in Hle.
  assert (Hp' : servoAt w i = Some p) by (unfold servoAt in *; by rewrite <- Harr).
  destruct (decide (p = q)) as [->|Hne].
  - rewrite Hs' in Hs. injection Hs as <-. rewrite Hi. by apply (Hok i q sq).
  - rewrite Hother in Hs by done. by apply (Hok i p s).
Qed.

Section BatchMove.

Variable hdr : Header.
Variables top p j : nat.
Variables v d : Z.
Variable s : ServoEasing.

Lemma batch_body_fst (w : World) (t : bool) (i : nat) :
  fst (setEaseToDForAllServos_body hdr d (w, t) i)
  = match servoAt w i with
    | Some q =>
        fst (startEaseToD hdr q (default 0 (ServoEasingNextPositionArray w !! i)) d false w)
    | None => w
    end.
Proof.
  unfold setEaseToDForAllServos_body. destruct (servoAt w i) as [q|]; [|done].
  by destruct (startEaseToD _ _ _ _ _ _).
Qed.

Lemma batch_body_other_awaits (w : World) (t : bool) (i : nat) :
  (i <= top)%nat -> (j <= top)%nat -> i <> j -> awaitsMove top p j v s w ->
  awaitsMove top p j v s (fst (setEaseToDForAllServos_body hdr d (w, t) i)).
Proof.
  intros Hle Hjt Hne Hw. rewrite batch_body_fst.
  destruct (servoAt w i) as [q|] eqn:Hq; [|done].
  destruct Hw as (Hok & Hmax & Hj & Hv & Hs).
  destruct (objects w !! q) as [sq|] eqn:Hsq.
  - assert (Hiq : mServoIndex sq = i) by (apply (Hok i q sq); [lia|done..]).
    assert (Hqp : p <> q).
    { intros ->. rewrite Hs in Hsq. injection Hsq as <-.
      pose proof (Hok j q s ltac:(lia) Hj Hs). lia. }
    match goal with |- context [startEaseToD hdr q ?a d false w] =>
      pose proof (startEaseToD_registry_ok hdr w q sq a d Hsq Hok) as Hok';
      destruct (startEaseToD_effect hdr w q sq a d Hsq)
        as (Harr & Hmax' & _ & Hother & _ & Hnext)
    end.
    split; [done|]. split; [congruence|]. split; [|split].
    + unfold servoAt in *. by rewrite Harr.
    + rewrite Hnext; [done|]. congruence.
    + by rewrite Hother.
  - unfold startEaseToD. rewrite Hsq. simpl. done.
Qed.

Lemma batch_body_other_has (moved : ServoEasing) (w : World) (t : bool) (i : nat) :
  (i <= top)%nat -> mServoIndex moved = j -> i <> j -> hasMove top p moved w ->
  hasMove top p moved (fst (setEaseToDForAllServos_body hdr d (w, t) i)).
Proof.
  intros Hle Hidx Hne Hw. rewrite batch_body_fst.
  destruct (servoAt w i) as [q|] eqn:Hq; [|done].
  destruct Hw as (Hok & Hmax & Hs).
  destruct (objects w !! q) as [sq|] eqn:Hsq.
  - assert (Hiq : mServoIndex sq = i) by (apply (Hok i q sq); [lia|done..]).
    assert (Hqp : p <> q) by (intros ->; congruence).
    match goal with |- context [startEaseToD hdr q ?a d false w] =>
      pose proof (startEaseToD_registry_ok hdr w q sq a d Hsq Hok) as Hok';
      destruct (startEaseToD_effect hdr w q sq a d Hsq)
        as (Harr & Hmax' & _ & Hother & _ & Hnext)
    end.
    split; [done|]. split; [congruence|]. by rewrite Hother.
  - unfold startEaseToD. rewrite Hsq. simpl. done.
Qed.

Lemma batch_body_self (w : World) (t : bool) :
  mServoIndex s = j -> j <> INVALID_SERVO hdr -> awaitsMove top p j v s w ->
  exists moved,
    hasMove top p moved (fst (setEaseToDForAllServos_body hdr d (w, t) j)) /\
    moved
    = set_move
        (if is_bouncing hdr s then mCurrentMicrosecondsOrUnits s
         else if mEasingType s =? EASE_DUMMY_MOVE hdr then mEndMicrosecondsOrUnits s
              else DegreeToMicrosecondsOrUnits hdr s v)
        ((if mEasingType s =? EASE_DUMMY_MOVE hdr then mEndMicrosecondsOrUnits s
          else DegreeToMicrosecondsOrUnits hdr s v) - mCurrentMicrosecondsOrUnits s)
        d (mCurrentMicrosecondsOrUnits s) (millis w) s.
Proof.
  intros Hidx Hinv (Hok & Hmax & Hj & Hv & Hs).
  rewrite batch_body_fst, Hj, Hv. simpl.
  pose proof (startEaseToD_registry_ok hdr w p s v d Hs Hok) as Hok'.
  destruct (startEaseToD_effect hdr w p s v d Hs) as (_ & Hmax' & _ & _ & _ & _).
  destruct (startEaseToD_attached hdr w p s v d false Hs ltac:(congruence))
    as (s' & Hs' & Heq & _).
  exists s'. split; [|exact Heq]. split; [done|]. split; [congruence|done].
Qed.

Lemma batch_loop_millis (l : list nat) (w : World) (t : bool) :
  millis (fst (foldl (setEaseToDForAllServos_body hdr d) (w, t) l)) = millis w.
Proof.
  revert w t. induction l as [|i l IH]; intros w t; [done|].
  cbn [foldl]. destruct (setEaseToDForAllServos_body hdr d (w, t) i) as [w1 t1] eqn:Hb.
  rewrite IH. assert (Hw1 : w1 = fst (setEaseToDForAllServos_body hdr d (w, t) i))
    by (by rewrite Hb).
  rewrite Hw1, batch_body_fst. destruct (servoAt w i) as [q|]; [|done].
  destruct (objects w !! q) as [sq|] eqn:Hsq.
  - by destruct (startEaseToD_effect hdr w q sq
                   (default 0 (ServoEasingNextPositionArray w !! i)) d Hsq)
      as (_ & _ & -> & _).
  - unfold startEaseToD. by rewrite Hsq.
Qed.

Lemma batch_loop_has (moved : ServoEasing) (l : list nat) (w : World) (t : bool) :
  mServoIndex moved = j -> (forall i, i ∈ l -> (i <= top)%nat) -> j ∉ l ->
  hasMove top p moved w ->
  hasMove top p moved (fst (foldl (setEaseToDForAllServos_body hdr d) (w, t) l)).
Proof.
  intros Hidx. revert w t. induction l as [|i l IH]; intros w t Hle Hnin Hw; [done|].
  cbn [foldl]. destruct (setEaseToDForAllServos_body hdr d (w, t) i) as [w1 t1] eqn:Hb.
  assert (Hw1 : w1 = fst (setEaseToDForAllServos_body hdr d (w, t) i)) by (by rewrite Hb).
  apply not_elem_of_cons in Hnin as (Hne & Hnin).
  apply IH; [intros k Hk; apply Hle, elem_of_cons; by right|done|].
  rewrite Hw1. apply batch_body_other_has; [apply Hle, elem_of_cons; by left|done| |done].
  congruence.
Qed.

Lemma batch_loop_reaches (l : list nat) (w : World) (t : bool) :
  mServoIndex s = j -> j <> INVALID_SERVO hdr -> (j <= top)%nat ->
  NoDup l -> (forall i, i ∈ l -> (i <= top)%nat) -> j ∈ l ->
  awaitsMove top p j v s w ->
  hasMove top p
    (set_move
       (if is_bouncing hdr s then mCurrentMicrosecondsOrUnits s
        else if mEasingType s =? EASE_DUMMY_MOVE hdr then mEndMicrosecondsOrUnits s
             else DegreeToMicrosecondsOrUnits hdr s v)
       ((if mEasingType s =? EASE_DUMMY_MOVE hdr then mEndMicrosecondsOrUnits s
         else DegreeToMicrosecondsOrUnits hdr s v) - mCurrentMicrosecondsOrUnits s)
       d (mCurrentMicrosecondsOrUnits s) (millis w) s)
    (fst (foldl (setEaseToDForAllServos_body hdr d) (w, t) l)).
Proof.
  intros Hidx Hinv Hjt Hnd. revert w t.
  induction Hnd as [|i l Hi Hnd IH]; intros w t Hle Hin Hw; [by apply elem_of_nil in Hin|].
  cbn [foldl]. destruct (setEaseToDForAllServos_body hdr d (w, t) i) as [w1 t1] eqn:Hb.
  assert (Hw1 : w1 = fst (setEaseToDForAllServos_body hdr d (w, t) i)) by (by rewrite Hb).
  assert (Hle' : forall k, k ∈ l -> (k <= top)%nat).
  { intros k Hk. apply Hle, elem_of_cons. by right. }
  assert (Hmil : millis w1 = millis w).
  { pose proof (batch_loop_millis [i] w t) as Hm. cbn [foldl] in Hm. by rewrite Hb in Hm. }
  destruct (decide (i = j)) as [Heq|Hne].
  - rewrite Heq in Hi, Hw1.
    destruct (batch_body_self w t Hidx Hinv Hw) as (moved & Hmoved & Hmeq).
    rewrite <- Hmeq. apply batch_loop_has; [by rewrite Hmeq|done|done|by rewrite Hw1].
  - apply elem_of_cons in Hin as [Hin|Hin]; [congruence|].
    rewrite <- Hmil. apply IH; [done|done|].
    rewrite Hw1. apply batch_body_other_awaits; [apply Hle, elem_of_cons; by left|done..].
Qed.

End BatchMove.

(** X28: in a registry where every object carries the index of its slot,
    [setEaseToDForAllServos(d)] starts, for every attached servo in a slot up
    to [sServoArrayMaxIndex], the move [startEaseToD] would start toward the
    position staged for its slot: the servo moves, its start position is its
    current position, its duration is [d], and its end position is the staged
    position converted (for the bouncing call style the current position). *)
Theorem setEaseToDForAllServos_starts_staged_moves (hdr : Header) (w : World)
    (p j : nat) (s : ServoEasing) (v d : Z) :
  registry_ok w -> (j <= sServoArrayMaxIndex w)%nat -> servoAt w j = Some p ->
  objects w !! p = Some s -> j <> INVALID_SERVO hdr ->
  mEasingType s <> EASE_DUMMY_MOVE hdr ->
  ServoEasingNextPositionArray w !! j = Some v ->
  exists s',
    objects (fst (setEaseToDForAllServos hdr d w)) !! p = Some s' /\
    mServoMoves s' = true /\
    mStartMicrosecondsOrUnits s' = mCurrentMicrosecondsOrUnits s /\
    mCurrentMicrosecondsOrUnits s' = mCurrentMicrosecondsOrUnits s /\
    mMillisForCompleteMove s' = d /\
    mMillisAtStartMove s' = millis w /\
    mEndMicrosecondsOrUnits s'
    = (if is_bouncing hdr s then mCurrentMicrosecondsOrUnits s
       else DegreeToMicrosecondsOrUnits hdr s v) /\
    mDeltaMicrosecondsOrUnits s'
    = DegreeToMicrosecondsOrUnits hdr s v - mCurrentMicrosecondsOrUnits s.
Proof.
  intros Hok Hj Hslot Hs Hinv Hdummy Hv.
  assert (Hidx : mServoIndex s = j) by (by apply (Hok j p s)).
  pose proof (batch_loop_reaches hdr (sServoArrayMaxIndex w) p j v d s (slots w) w false
                Hidx Hinv Hj (NoDup_seq _ _)
                (fun i Hi => proj1 (elem_of_slots w i) Hi)
                (proj2 (elem_of_slots w j) Hj)
                (conj Hok (conj eq_refl (conj Hslot (conj Hv Hs))))) as (_ & _ & Hfinal).
  eexists. split; [exact Hfinal|].
  destruct (Z.eqb_spec (mEasingType s) (EASE_DUMMY_MOVE hdr)) as [|_]; [done|].
  by repeat split.
Qed.

Lemma setEaseToDForAllServos_starts_staged_moves_witness :
  let s := Sample.servo 1 10 544 2400 1500 in
  let w := setDegreeForAllServos 2 [90; 45] Sample.mixedWorld in
  exists s',
    objects (fst (setEaseToDForAllServos Sample.header 800 w)) !! 1%nat = Some s' /\
    mServoMoves s' = true /\
    mStartMicrosecondsOrUnits s' = mCurrentMicrosecondsOrUnits s /\
    mCurrentMicrosecondsOrUnits s' = mCurrentMicrosecondsOrUnits s /\
    mMillisForCompleteMove s' = 800 /\
    mMillisAtStartMove s' = millis w /\
    mEndMicrosecondsOrUnits s'
    = (if is_bouncing Sample.header s then mCurrentMicrosecondsOrUnits s
       else DegreeToMicrosecondsOrUnits Sample.header s 45) /\
    mDeltaMicrosecondsOrUnits s'
    = DegreeToMicrosecondsOrUnits Sample.header s 45 - mCurrentMicrosecondsOrUnits s.
Proof.
  apply (setEaseToDForAllServos_starts_staged_moves Sample.header
           (setDegreeForAllServos 2 [90; 45] Sample.mixedWorld) 1 1
           (Sample.servo 1 10 544 2400 1500) 45 800).
  - exact mixedWorld_registry_ok.
  - simpl. lia.
  - reflexivity.
  - reflexivity.
  - simpl. lia.
  - simpl. lia.
  - reflexivity.
Defined.

(** ** Synchronising twice *)

Lemma synchronized_timing (aStart : bool) (w : World) (r : nat) (x : ServoEasing) :
  movingServo (synchronizeAllServosAndStartInterrupt aStart w) r x ->
  r ∈ omap (movingAt w) (slots w) /\
  mMillisAtStartMove x = snd (findMaxDurationAndStart w) /\
  mMillisForCompleteMove x = fst (findMaxDurationAndStart w).
Proof.
  intros ((i & Hi & Hr) & Hx & Hm).
  destruct (synchronize_registry aStart w) as (Harr & Hmax).
  rewrite Hmax in Hi.
  assert (Hr' : servoAt w i = Some r) by (unfold servoAt in *; by rewrite <- Harr).
  pose proof (synchronize_objects aStart w r) as Hobj.
  rewrite Hx in Hobj. case_decide as Hin.
  - split; [done|]. destruct (objects w !! r) as [x0|]; [|done]. by injection Hobj as ->.
  - exfalso. apply Hin, movingServo_omap. split; [by exists i|].
    unfold moves. by rewrite <- Hobj.
Qed.

Lemma synchronize_selection (aStart : bool) (w : World) (q : nat) :
  q ∈ omap (movingAt (synchronizeAllServosAndStartInterrupt aStart w))
        (slots (synchronizeAllServosAndStartInterrupt aStart w))
  <-> q ∈ omap (movingAt w) (slots w).
Proof.
  rewrite !movingServo_omap.
  destruct (synchronize_registry aStart w) as (Harr & Hmax).
  assert (Hreg : registered (synchronizeAllServosAndStartInterrupt aStart w) q
                 <-> registered w q).
  { unfold registered, servoAt. by rewrite Harr, Hmax. }
  assert (Hmoves : moves (synchronizeAllServosAndStartInterrupt aStart w) q = moves w q).
  { unfold moves. rewrite synchronize_objects. case_decide; [|done].
    by destruct (objects w !! q). }
  by rewrite Hreg, Hmoves.
Qed.

(** X29: synchronising twice is synchronising once: a second call of
    [synchronizeAllServosAndStartInterrupt] finds the common duration and
    start time again and leaves the state as the first call left it. *)
Theorem synchronize_is_idempotent (aStart : bool) (w : World) :
  synchronizeAllServosAndStartInterrupt aStart
    (synchronizeAllServosAndStartInterrupt aStart w)
  = synchronizeAllServosAndStartInterrupt aStart w.
Proof.
  set (w1 := synchronizeAllServosAndStartInterrupt aStart w).
  assert (Hobj : objects (synchronizeAllServosAndStartInterrupt aStart w1) = objects w1).
  { apply list_eq. intros q. rewrite (synchronize_objects aStart w1 q).
    case_decide as Hin; [|done].
    pose proof (proj1 (synchronize_selection aStart w q) Hin) as Hin0.
    destruct (objects w1 !! q) as [x|] eqn:Hx; [|done]. simpl. f_equal.
    assert (Hmv : movingServo w1 q x).
    { apply movingServo_omap in Hin as (Hreg & Hm). split; [done|]. split; [done|].
      unfold moves in Hm. by rewrite Hx in Hm. }
    destruct (synchronized_timing aStart w q x Hmv) as (_ & Hst & Hdur).
    (* the scan of the synchronised world finds the same pair again *)
    pose proof (scan_max_duration w1 (slots w1) 0 0) as Hscan1. cbv zeta in Hscan1.
    fold (findMaxDurationAndStart w1) in Hscan1.
    pose proof (scan_max_duration w (slots w) 0 0) as Hscan. cbv zeta in Hscan.
    fold (findMaxDurationAndStart w) in Hscan.
    destruct Hscan as (Hge & _). destruct Hscan1 as (Hge1 & Hub1 & Hatt1 & Hst1).
    apply movingServo_at in Hmv as (i & Hi & Hp & Hxx).
    assert (HtM : fst (findMaxDurationAndStart w1) = fst (findMaxDurationAndStart w)).
    { pose proof (Hub1 i q x Hi Hp Hxx) as Hle.
      destruct Hatt1 as [Hz|(i' & q' & x' & Hi' & Hp' & Hx' & Hd')]; [lia|].
      assert (Hmv' : movingServo w1 q' x') by (apply movingServo_at; eauto).
      destruct (synchronized_timing aStart w q' x' Hmv') as (_ & _ & Hdur').
      lia. }
    assert (HtS : snd (findMaxDurationAndStart w1) = snd (findMaxDurationAndStart w)).
    { destruct Hst1 as (i' & q' & x' & Hi' & Hp' & Hx' & Hs'); [by exists i, q, x|].
      assert (Hmv' : movingServo w1 q' x') by (apply movingServo_at; eauto).
      destruct (synchronized_timing aStart w q' x' Hmv') as (_ & Hst' & _).
      lia. }
    rewrite HtM, HtS, <- Hst, <- Hdur. by destruct x. }
  (* the statics *)
  unfold synchronizeAllServosAndStartInterrupt at 1.
  unfold synchronizeAllServosAndStartInterrupt at 1 in Hobj.
  destruct (findMaxDurationAndStart w1) as [tMax1 tStart1].
  pose proof (modify_selected_statics (set_timing tStart1 tMax1) movingAt (slots w1) w1)
    as Hst1.
  unfold same_statics in Hst1.
  set (f1 := foldl _ w1 (slots w1)) in *.
  assert (Hobj1 : objects f1 = objects w1) by (by destruct aStart).
  rewrite Hst1, Hobj1.
  unfold w1, synchronizeAllServosAndStartInterrupt.
  destruct (findMaxDurationAndStart w) as [tMax tStart].
  pose proof (modify_selected_statics (set_timing tStart tMax) movingAt (slots w) w) as Hst.
  unfold same_statics in Hst.
  set (f := foldl _ w (slots w)) in *.
  destruct aStart; simpl; rewrite Hst; reflexivity.
Qed.
